(** * Friends List API: a shallow embedding of index.js and router/friends.js

    The development follows the two source files:
    - [Js]: the few pieces of JavaScript the handlers rely on (truthiness,
      [String.prototype.includes], property lookup along the prototype
      chain of an object literal);
    - [Http]: the JSON responses built by [res.status(..).json(..)];
    - [Router]: router/friends.js, the documented revision (email check,
      changed-field tracking, [remainingCount]);
    - [RouterBasic]: router/friends.js, the shorter revision;
    - [Users]: the credential array of index.js and POST /register;
    - [Auth]: POST /login and the middleware mounted on /friends;
    - [Spec]: the update operation in the words of the specification, and
      the shapes of the responses;
    - [App]: the protected route as index.js mounts it, and sequences of
      registrations;
    - [JsFacts], [RouterFacts], [UsersFacts], [AuthFacts]: the properties;
    - [RouterProps], [RouterBasicProps], [UsersProps], [AppProps]: further
      properties of the handlers and of their composition.

    Request fields are strings, as the handlers' JSDoc declares them
    ([@param {string} email.body.required] and so on); a field that the
    request does not carry is [None] (JavaScript's [undefined]). *)

From stdpp Require Import gmap strings list fin_maps pretty.
From Stdlib Require Import ZArith.

Open Scope string_scope.

(** ** JavaScript primitives *)

Module Js.

(** [!v] for a string-or-undefined value: [undefined] and [""] are falsy. *)
Definition truthy (v : option string) : bool :=
  match v with
  | None => false
  | Some s => negb (String.eqb s "")
  end.

(** [s.includes(needle)]. *)
Fixpoint includes (needle s : string) : bool :=
  if String.prefix needle s then true
  else match s with
       | EmptyString => false
       | String _ s' => includes needle s'
       end.

(** What "[needle] is a substring of [s]" means. *)
Definition substring_of (needle s : string) : Prop :=
  ∃ pre post, s = pre +:+ needle +:+ post.

(** The three properties a friend object has. *)
Inductive field := FirstName | LastName | Dob.

Definition field_name (f : field) : string :=
  match f with
  | FirstName => "firstName"
  | LastName => "lastName"
  | Dob => "DOB"
  end.

#[global] Instance field_eq_dec : EqDecision field.
Proof. solve_decision. Defined.

(** A friend record: [{ firstName, lastName, DOB }]. *)
Record friend := Friend {
  firstName : string;
  lastName : string;
  DOB : string
}.

#[global] Instance friend_eq_dec : EqDecision friend.
Proof. solve_decision. Defined.

Definition friend_get (f : field) (r : friend) : string :=
  match f with
  | FirstName => firstName r
  | LastName => lastName r
  | Dob => DOB r
  end.

Definition friend_set (f : field) (v : string) (r : friend) : friend :=
  match f with
  | FirstName => {| firstName := v; lastName := lastName r; DOB := DOB r |}
  | LastName => {| firstName := firstName r; lastName := v; DOB := DOB r |}
  | Dob => {| firstName := firstName r; lastName := lastName r; DOB := v |}
  end.

(** An object that owns any subset of the three properties: the body of a
    PUT request, or the properties that assignments have added to one of the
    runtime's built-in objects. *)
Record partial := Partial {
  p_firstName : option string;
  p_lastName : option string;
  p_DOB : option string
}.

#[global] Instance partial_eq_dec : EqDecision partial.
Proof. solve_decision. Defined.

Definition no_fields : partial := Partial None None None.

Definition partial_get (f : field) (p : partial) : option string :=
  match f with
  | FirstName => p_firstName p
  | LastName => p_lastName p
  | Dob => p_DOB p
  end.

Definition partial_set (f : field) (v : string) (p : partial) : partial :=
  match f with
  | FirstName => {| p_firstName := Some v; p_lastName := p_lastName p; p_DOB := p_DOB p |}
  | LastName => {| p_firstName := p_firstName p; p_lastName := Some v; p_DOB := p_DOB p |}
  | Dob => {| p_firstName := p_firstName p; p_lastName := p_lastName p; p_DOB := Some v |}
  end.

(** The function-valued members every object literal inherits from
    [Object.prototype] (Node 18); ["__proto__"] is the accessor that returns
    [Object.prototype] itself. *)
Definition prototype_methods : list string :=
  [ "constructor"; "__defineGetter__"; "__defineSetter__"; "hasOwnProperty";
    "__lookupGetter__"; "__lookupSetter__"; "isPrototypeOf";
    "propertyIsEnumerable"; "toString"; "valueOf"; "toLocaleString" ].

(** The mutable objects the router can reach: the [friends] object (its own
    properties) and, through [friends]' prototype chain, [Object.prototype]
    and its methods, each with the properties assigned to it so far. *)
Record store := Store {
  friends : gmap string friend;
  object_prototype : partial;
  method_props : gmap string partial
}.

(** What [friends[key]] evaluates to. *)
Inductive ref :=
  | RFriend (r : friend)       (* an own property of [friends] *)
  | RObjectPrototype           (* key "__proto__" *)
  | RMethod (name : string)    (* an inherited built-in function *)
  | RString (s : string)       (* a string property of [Object.prototype] *)
  | RUndefined.

(** A property that an assignment put on [Object.prototype] is inherited by
    every object, under its own name. *)
Definition inherited_string (p : partial) (key : string) : option string :=
  if decide (key = "firstName") then p_firstName p
  else if decide (key = "lastName") then p_lastName p
  else if decide (key = "DOB") then p_DOB p
  else None.

Definition inherited (st : store) (key : string) : ref :=
  if decide (key = "__proto__") then RObjectPrototype
  else if decide (key ∈ prototype_methods) then RMethod key
  else match inherited_string (object_prototype st) key with
       | Some s => RString s
       | None => RUndefined
       end.

(** [friends[key]]: own property first, then the prototype chain. *)
Definition lookup (st : store) (key : string) : ref :=
  match friends st !! key with
  | Some r => RFriend r
  | None => inherited st key
  end.

(** Truthiness of [friends[key]]. *)
Definition ref_truthy (x : ref) : bool :=
  match x with
  | RFriend _ | RObjectPrototype | RMethod _ => true
  | RString s => negb (String.eqb s "")
  | RUndefined => false
  end.

Definition props_of_method (st : store) (name : string) : partial :=
  default no_fields (method_props st !! name).

(** [friends[key].f]: the property [f] of the object [friends[key]]; a
    function or a string does not own it by itself and falls back on
    [Object.prototype]. *)
Definition ref_get (st : store) (x : ref) (f : field) : option string :=
  match x with
  | RFriend r => Some (friend_get f r)
  | RObjectPrototype => partial_get f (object_prototype st)
  | RMethod name =>
      match partial_get f (props_of_method st name) with
      | Some v => Some v
      | None => partial_get f (object_prototype st)
      end
  | RString _ => partial_get f (object_prototype st)
  | RUndefined => None
  end.

(** [friends[key].f = v]. The module is not in strict mode: assigning to a
    property of a string primitive does nothing. *)
Definition assign (st : store) (key : string) (f : field) (v : string) : store :=
  match lookup st key with
  | RFriend r =>
      {| friends := <[key := friend_set f v r]> (friends st);
         object_prototype := object_prototype st;
         method_props := method_props st |}
  | RObjectPrototype =>
      {| friends := friends st;
         object_prototype := partial_set f v (object_prototype st);
         method_props := method_props st |}
  | RMethod name =>
      {| friends := friends st;
         object_prototype := object_prototype st;
         method_props := <[name := partial_set f v (props_of_method st name)]> (method_props st) |}
  | RString _ | RUndefined => st
  end.

(** [body.f] for a parsed JSON object [body]: its own property, else the one
    inherited from [Object.prototype]. *)
Definition body_get (st : store) (body : partial) (f : field) : option string :=
  match partial_get f body with
  | Some v => Some v
  | None => partial_get f (object_prototype st)
  end.

(** [Object.keys(friends)]: the own enumerable property names. *)
Definition object_keys (st : store) : list string :=
  (map_to_list (friends st)).*1.

End Js.

(** ** JSON responses *)

Module Http.
Import Js.

(** What a handler puts under [data]. *)
Inductive payload :=
  | DFriend (r : friend)                  (* a friend object *)
  | DFriends (all : gmap string friend)   (* the whole [friends] object *)
  | DProps (p : partial)                  (* the enumerable own properties of a built-in object *)
  | DString (s : string)                  (* a string *)
  | DChars (s : string)                   (* [{...s}] for a string: one property per character *)
  | DLogin (username expires : string).   (* [{ username, tokenExpiresIn }] *)

(** A response: the status code and the members of the JSON body; a member
    whose value is [undefined] is not serialised, hence [None]. *)
Record response := Response {
  status : nat;
  success : bool;
  message : option string;
  data : option payload;
  count : option nat;
  updatedFields : option (list string);
  remainingCount : option nat
}.

(** [{ success, message }] *)
Definition plain (code : nat) (ok : bool) (msg : string) : response :=
  Response code ok (Some msg) None None None None.

(** [JSON.stringify] of [friends[key]] inside a response: a function is
    dropped, an object shows its enumerable own properties. *)
Definition to_json (st : store) (x : ref) : option payload :=
  match x with
  | RFriend r => Some (DFriend r)
  | RObjectPrototype => Some (DProps (object_prototype st))
  | RMethod _ => None
  | RString s => Some (DString s)
  | RUndefined => None
  end.

(** [{ ...friends[key] }]: a fresh object with the enumerable own
    properties of the operand. *)
Definition spread (st : store) (x : ref) : payload :=
  match x with
  | RFriend r => DFriend r
  | RObjectPrototype => DProps (object_prototype st)
  | RMethod name => DProps (props_of_method st name)
  | RString s => DChars s
  | RUndefined => DProps no_fields
  end.

(** [xs.join(sep)] *)
Fixpoint join (sep : string) (xs : list string) : string :=
  match xs with
  | [] => ""
  | [x] => x
  | x :: rest => x +:+ sep +:+ join sep rest
  end.

End Http.

(** ** router/friends.js *)

Module Router.
Import Js Http.

(** The [friends] object the module starts with. *)
Definition initial_friends : gmap string friend :=
  <["johnsmith@gmail.com" := Friend "John" "Doe" "22-12-1990"]>
  (<["annasmith@gmail.com" := Friend "Anna" "Smith" "02-07-1983"]>
  (<["peterjones@gmail.com" := Friend "Peter" "Jones" "21-03-1989"]> ∅)).

(** The state at process start: no property has been added to a built-in. *)
Definition init : store := Store initial_friends no_fields ∅.

Definition not_found (email : string) : response :=
  plain 404 false ("Friend with email '" +:+ email +:+ "' not found").

Definition missing_fields : response :=
  plain 400 false "All fields are required: email, firstName, lastName, DOB".

Definition invalid_email : response :=
  plain 400 false "Please provide a valid email address".

Definition already_exists (email : string) : response :=
  plain 400 false ("Friend with email '" +:+ email +:+ "' already exists").

(** GET /friends *)
Definition list_all (st : store) : store * response :=
  let n := length (object_keys st) in
  (st, {| status := 200; success := true;
          data := Some (DFriends (friends st));
          count := Some n;
          message := Some ("Successfully retrieved " +:+ pretty n +:+ " friend(s)");
          updatedFields := None; remainingCount := None |}).

(** GET /friends/:email *)
Definition get_one (email : string) (st : store) : store * response :=
  let friend := lookup st email in
  if ref_truthy friend then
    (st, {| status := 200; success := true;
            data := to_json st friend;
            message := Some ("Friend '" +:+ email +:+ "' retrieved successfully");
            count := None; updatedFields := None; remainingCount := None |})
  else (st, not_found email).

(** The body of POST /friends. *)
Record create_body := CreateBody {
  b_email : option string;
  b_fields : partial
}.

(** A destructured body member, kept when it passes the [!x] test. *)
Definition required (v : option string) : option string :=
  if truthy v then v else None.

(** [friends[email] = r], reached only when [friends[email]] is falsy, so
    that it defines an own property. *)
Definition define_own (st : store) (email : string) (r : friend) : store :=
  {| friends := <[email := r]> (friends st);
     object_prototype := object_prototype st;
     method_props := method_props st |}.

(** POST /friends *)
Definition create (body : create_body) (st : store) : store * response :=
  match required (b_email body),
        required (body_get st (b_fields body) FirstName),
        required (body_get st (b_fields body) LastName),
        required (body_get st (b_fields body) Dob) with
  | Some email, Some fn, Some ln, Some d =>
      if negb (includes "@" email) || negb (includes "." email) then
        (st, invalid_email)
      else if ref_truthy (lookup st email) then
        (st, already_exists email)
      else
        let st' := define_own st email (Friend fn ln d) in
        (st', {| status := 201; success := true;
                 message := Some "Friend created successfully";
                 data := to_json st' (lookup st' email);
                 count := None; updatedFields := None; remainingCount := None |})
  | _, _, _, _ => (st, missing_fields)
  end.

(** One of the three blocks
    [if (updates.f !== undefined && updates.f !== friends[email].f)
       { friends[email].f = updates.f; updatedFields.push('f'); }] *)
Definition update_field (email : string) (updates : partial) (f : field)
    (acc : store * list string) : store * list string :=
  let '(st, updated) := acc in
  match body_get st updates f with
  | Some v =>
      if decide (Some v ≠ ref_get st (lookup st email) f)
      then (assign st email f v, (updated ++ [field_name f])%list)
      else (st, updated)
  | None => (st, updated)
  end.

Definition update_message (email : string) (updated : list string) : string :=
  match updated with
  | [] => "No fields were updated (values unchanged)"
  | [f] => "Updated " +:+ f +:+ " for friend '" +:+ email +:+ "'"
  | _ => "Friend updated. Fields modified: " +:+ join ", " updated
  end.

(** PUT /friends/:email *)
Definition update (email : string) (updates : partial) (st : store) : store * response :=
  if negb (ref_truthy (lookup st email)) then (st, not_found email)
  else
    let '(st', updated) :=
      update_field email updates Dob
        (update_field email updates LastName
          (update_field email updates FirstName (st, []))) in
    (st', {| status := 200; success := true;
             message := Some (update_message email updated);
             data := to_json st' (lookup st' email);
             updatedFields := if decide (0 < length updated) then Some updated else None;
             count := None; remainingCount := None |}).

(** [delete friends[email]]: removes an own property, and nothing else. *)
Definition delete_own (st : store) (email : string) : store :=
  {| friends := delete email (friends st);
     object_prototype := object_prototype st;
     method_props := method_props st |}.

(** DELETE /friends/:email *)
Definition remove (email : string) (st : store) : store * response :=
  if negb (ref_truthy (lookup st email)) then (st, not_found email)
  else
    let deletedFriend := spread st (lookup st email) in
    let st' := delete_own st email in
    (st', {| status := 200; success := true;
             message := Some ("Friend with email '" +:+ email +:+ "' deleted successfully");
             data := Some deletedFriend;
             remainingCount := Some (length (object_keys st'));
             count := None; updatedFields := None |}).

(** The requests the router serves. *)
Inductive request :=
  | GetAll
  | GetOne (email : string)
  | Post (body : create_body)
  | Put (email : string) (updates : partial)
  | Delete (email : string).

Definition handle (rq : request) (st : store) : store * response :=
  match rq with
  | GetAll => list_all st
  | GetOne email => get_one email st
  | Post body => create body st
  | Put email updates => update email updates st
  | Delete email => remove email st
  end.

(** The states the router can be in: those a sequence of requests leads to
    from the state at process start. *)
Inductive reachable : store → Prop :=
  | reachable_init : reachable init
  | reachable_step rq st : reachable st → reachable (handle rq st).1.

(** The state after a sequence of requests, and the responses sent. *)
Fixpoint run (rqs : list request) (st : store) : store * list response :=
  match rqs with
  | [] => (st, [])
  | rq :: rest =>
      let '(st1, r) := handle rq st in
      let '(st2, rs) := run rest st1 in
      (st2, r :: rs)
  end.

End Router.

(** ** router/friends.js, the shorter revision

    Same store, same routes; no email check in POST, every provided field
    counts as updated in PUT, and the responses carry fewer members. *)

Module RouterBasic.
Import Js Http.

Definition init : store := Router.init.

(** GET /friends *)
Definition list_all (st : store) : store * response :=
  (st, {| status := 200; success := true;
          data := Some (DFriends (friends st));
          count := Some (length (object_keys st));
          message := None; updatedFields := None; remainingCount := None |}).

(** GET /friends/:email *)
Definition get_one (email : string) (st : store) : store * response :=
  let friend := lookup st email in
  if ref_truthy friend then
    (st, {| status := 200; success := true; data := to_json st friend;
            message := None; count := None; updatedFields := None;
            remainingCount := None |})
  else (st, Router.not_found email).

(** POST /friends *)
Definition create (body : Router.create_body) (st : store) : store * response :=
  match Router.required (Router.b_email body),
        Router.required (body_get st (Router.b_fields body) FirstName),
        Router.required (body_get st (Router.b_fields body) LastName),
        Router.required (body_get st (Router.b_fields body) Dob) with
  | Some email, Some fn, Some ln, Some d =>
      if ref_truthy (lookup st email) then
        (st, Router.already_exists email)
      else
        let st' := Router.define_own st email (Friend fn ln d) in
        (st', {| status := 201; success := true;
                 message := Some "Friend created successfully";
                 data := to_json st' (lookup st' email);
                 count := None; updatedFields := None; remainingCount := None |})
  | _, _, _, _ => (st, Router.missing_fields)
  end.

(** One of the three blocks
    [if (updates.f !== undefined)
       { friends[email].f = updates.f; updatedFields.push('f'); }] *)
Definition update_field (email : string) (updates : partial) (f : field)
    (acc : store * list string) : store * list string :=
  let '(st, updated) := acc in
  match body_get st updates f with
  | Some v => (assign st email f v, (updated ++ [field_name f])%list)
  | None => (st, updated)
  end.

(** PUT /friends/:email *)
Definition update (email : string) (updates : partial) (st : store) : store * response :=
  if negb (ref_truthy (lookup st email)) then (st, Router.not_found email)
  else
    let '(st', updated) :=
      update_field email updates Dob
        (update_field email updates LastName
          (update_field email updates FirstName (st, []))) in
    (st', {| status := 200; success := true;
             message := Some (if decide (0 < length updated)
                              then "Friend updated. Fields modified: " +:+ join ", " updated
                              else "No fields were updated");
             data := to_json st' (lookup st' email);
             updatedFields := None; count := None; remainingCount := None |}).

(** DELETE /friends/:email *)
Definition remove (email : string) (st : store) : store * response :=
  if negb (ref_truthy (lookup st email)) then (st, Router.not_found email)
  else
    let deletedFriend := spread st (lookup st email) in
    (Router.delete_own st email,
     {| status := 200; success := true;
        message := Some ("Friend with email '" +:+ email +:+ "' deleted successfully");
        data := Some deletedFriend;
        remainingCount := None; count := None; updatedFields := None |}).

End RouterBasic.

(** ** index.js: the credential store and POST /register *)

Module Users.
Import Js Http.

(** An element of the [users] array; [createdAt] is the instant
    [new Date()] returned (milliseconds since the epoch). *)
Record user := User {
  username : string;
  password : string;
  createdAt : Z
}.

#[global] Instance user_eq_dec : EqDecision user.
Proof. solve_decision. Defined.

(** [users.some(user => user.username === username)] *)
Definition doesExist (users : list user) (name : string) : bool :=
  existsb (λ u, String.eqb (username u) name) users.

(** [users.some(user => user.username === username && user.password === password)] *)
Definition authenticatedUser (users : list user) (name pass : string) : bool :=
  existsb (λ u, String.eqb (username u) name && String.eqb (password u) pass) users.

(** The body of POST /register and POST /login. *)
Record credentials := Credentials {
  c_username : option string;
  c_password : option string
}.

Definition fields_required : response :=
  plain 400 false "Username and password are required.".

Definition username_taken : response :=
  plain 409 false "Username already exists. Please choose a different username.".

Definition registered : response :=
  plain 201 true "User registered successfully. You can now login.".

(** POST /register; [now] is the clock read by [new Date()]. *)
Definition register (now : Z) (body : credentials) (users : list user)
    : list user * response :=
  if negb (truthy (c_username body)) || negb (truthy (c_password body)) then
    (users, fields_required)
  else
    let name := default "" (c_username body) in
    let pass := default "" (c_password body) in
    if doesExist users name then (users, username_taken)
    else ((users ++ [User name pass now])%list, registered).

End Users.

(** ** index.js: POST /login and the middleware on /friends *)

Module Auth.
Import Js Http Users.

(** The object given to [jwt.sign]. *)
Record claims := Claims {
  claim_username : string;
  claim_data : string
}.

(** What [jwt.verify] hands to its callback on success. *)
Record decoded := Decoded {
  d_username : string;
  d_data : string;
  d_iat : Z;
  d_exp : Z
}.

(** The two functions of the jsonwebtoken package that index.js calls.
    [jwt_sign payload secret expiresIn now] and
    [jwt_verify token secret now], with the clock (in seconds) made explicit;
    [jwt_verify] is [None] when the callback receives an error. *)
Class Jwt (token : Type) := {
  jwt_sign : claims → string → Z → Z → token;
  jwt_verify : token → string → Z → option decoded
}.

(** What the package promises: a token verifies under the secret that
    signed it until it expires, and verification returns what was signed. *)
Class JwtLaws (token : Type) `{Jwt token} : Prop := {
  verify_fresh c k ttl t0 t :
    (t < t0 + ttl)%Z →
    jwt_verify (jwt_sign c k ttl t0) k t
    = Some (Decoded (claim_username c) (claim_data c) t0 (t0 + ttl)%Z);
  verify_signed c k ttl t0 t d :
    jwt_verify (jwt_sign c k ttl t0) k t = Some d →
    d_username d = claim_username c ∧ d_data d = claim_data c
}.

Section middleware.
Context {token : Type} `{Jwt token}.

(** [req.session.authorization] *)
Record authorization := Authorization {
  accessToken : token;
  auth_username : string
}.

(** [req.session]: the member set by login and the cookie's [maxAge]. *)
Record session := Session {
  session_authorization : option authorization;
  cookie_maxAge : Z
}.

(** [req.user] *)
Record identity := Identity {
  user_username : string;
  user_data : string
}.

(** A middleware either answers or calls [next()]. *)
Inductive gate :=
  | Respond (r : response)
  | Next (user : identity).

Definition unauthorized : response :=
  plain 401 false "Authentication required. Please login first.".

Definition forbidden : response :=
  plain 403 false "Session expired or invalid. Please login again.".

(** [authMiddleware] *)
Definition authMiddleware (now : Z) (s : session) : gate :=
  match session_authorization s with
  | None => Respond unauthorized
  | Some a =>
      let token := accessToken a in
      let username := auth_username a in
      match jwt_verify token "access" now with
      | None => Respond forbidden
      | Some d => Next (Identity username (d_data d))
      end
  end.

(** [app.use("/friends", authMiddleware); app.use("/friends", routes)]:
    the router runs when, and only when, the middleware calls [next()]. *)
Definition friends_route {S Rq : Type}
    (routes : identity → Rq → S → S * response)
    (now : Z) (s : session) (rq : Rq) (st : S) : S * response :=
  match authMiddleware now s with
  | Respond r => (st, r)
  | Next user => routes user rq st
  end.

Definition invalid_credentials : response :=
  plain 401 false "Invalid username or password.".

(** POST /login; [now] is the clock in seconds. *)
Definition login (now : Z) (body : credentials) (users : list user) (s : session)
    : session * response :=
  if negb (truthy (c_username body)) || negb (truthy (c_password body)) then
    (s, fields_required)
  else
    let name := default "" (c_username body) in
    let pass := default "" (c_password body) in
    if negb (authenticatedUser users name pass) then (s, invalid_credentials)
    else
      let accessToken := jwt_sign (Claims name pass) "access" (60 * 60) now in
      (Session (Some (Authorization accessToken name)) (60 * 60 * 1000),
       {| status := 200; success := true; message := Some "Login successful";
          data := Some (DLogin name "1 hour");
          count := None; updatedFields := None; remainingCount := None |}).

End middleware.

(** A reference implementation of the package's interface: a token is the
    payload, the two timestamps and the signing key in the clear. *)
Module Plain.

Record token := Token {
  t_claims : claims;
  t_iat : Z;
  t_exp : Z;
  t_key : string
}.

#[global] Instance plain_jwt : Jwt token := {
  jwt_sign c k ttl now := Token c now (now + ttl) k;
  jwt_verify t k now :=
    if decide (t_key t = k) then
      if decide (now < t_exp t)%Z
      then Some (Decoded (claim_username (t_claims t)) (claim_data (t_claims t))
                         (t_iat t) (t_exp t))
      else None
    else None
}.

End Plain.

End Auth.

(** ** The specification's reading of the update operation *)

Module Spec.
Import Js Http.

(** "For each field present in the partial fields: if the incoming value
    differs from the stored one, apply it." *)
Definition apply_field (f : field) (updates : partial) (r : friend) : friend :=
  match partial_get f updates with
  | Some v => if decide (v ≠ friend_get f r) then friend_set f v r else r
  | None => r
  end.

(** "... and record the field name as changed." *)
Definition changed_name (f : field) (updates : partial) (r : friend) : list string :=
  match partial_get f updates with
  | Some v => if decide (v ≠ friend_get f r) then [field_name f] else []
  | None => []
  end.

(** The record after an update, and the names of the fields it changed. *)
Definition spec_update (updates : partial) (r : friend) : friend :=
  apply_field Dob updates (apply_field LastName updates (apply_field FirstName updates r)).

Definition spec_changed (updates : partial) (r : friend) : list string :=
  (changed_name FirstName updates r ++ changed_name LastName updates r
   ++ changed_name Dob updates r)%list.

(** The three members of the request body as a handler reads them in a
    given state of the runtime. *)
Definition incoming (st : store) (updates : partial) : partial :=
  Partial (body_get st updates FirstName) (body_get st updates LastName)
          (body_get st updates Dob).

(** The changed fields an update response reports, replayed on a record:
    each field named in [updatedFields] takes the value it has in the
    returned record. *)
Definition replay_field (names : list string) (r' : friend) (f : field)
    (acc : friend) : friend :=
  if bool_decide (field_name f ∈ names) then friend_set f (friend_get f r') acc else acc.

Definition replay (acc : friend) (resp : response) : friend :=
  match data resp with
  | Some (DFriend r') =>
      let names := default [] (updatedFields resp) in
      replay_field names r' Dob
        (replay_field names r' LastName (replay_field names r' FirstName acc))
  | _ => acc
  end.

(** The n update calls of a round trip, all on one email. *)
Definition updates_on (email : string) (bodies : list partial) : list Router.request :=
  map (Router.Put email) bodies.

(** The shapes of the successful responses of the router. *)
Definition listed (all : gmap string friend) (n : nat) : response :=
  {| status := 200; success := true; data := Some (DFriends all); count := Some n;
     message := Some ("Successfully retrieved " +:+ pretty n +:+ " friend(s)");
     updatedFields := None; remainingCount := None |}.

Definition found (email : string) (r : friend) : response :=
  {| status := 200; success := true; data := Some (DFriend r);
     message := Some ("Friend '" +:+ email +:+ "' retrieved successfully");
     count := None; updatedFields := None; remainingCount := None |}.

Definition created (r : friend) : response :=
  {| status := 201; success := true; message := Some "Friend created successfully";
     data := Some (DFriend r);
     count := None; updatedFields := None; remainingCount := None |}.

(** [changed] is what the handler collected in its local [updatedFields];
    the response member of that name is [undefined] when it is empty. *)
Definition updated (email : string) (r : friend) (changed : list string) : response :=
  {| status := 200; success := true;
     message := Some (Router.update_message email changed);
     data := Some (DFriend r);
     updatedFields := match changed with [] => None | _ => Some changed end;
     count := None; remainingCount := None |}.

Definition removed (email : string) (d : payload) (remaining : nat) : response :=
  {| status := 200; success := true;
     message := Some ("Friend with email '" +:+ email +:+ "' deleted successfully");
     data := Some d; remainingCount := Some remaining;
     count := None; updatedFields := None |}.

(** The three emails of the initial store. *)
Definition initial_emails : list string :=
  [ "johnsmith@gmail.com"; "annasmith@gmail.com"; "peterjones@gmail.com" ].

End Spec.

(** ** The application as index.js assembles it, and sequences of requests *)

Module App.
Import Js Http Users Auth.

(** [app.use("/friends", authMiddleware)] followed by
    [app.use("/friends", routes)], with the router of router/friends.js;
    its handlers do not read [req.user]. *)
Definition friends_app {token : Type} `{Jwt token}
    (now : Z) (s : session) (rq : Router.request) (st : store) : store * response :=
  friends_route (λ _ rq st, Router.handle rq st) now s rq st.

(** A sequence of POST /register requests, each with the clock it reads. *)
Fixpoint register_all (rqs : list (Z * credentials)) (users : list user) : list user :=
  match rqs with
  | [] => users
  | (now, body) :: rest => register_all rest (register now body users).1
  end.

(** What holds of the [users] array: no two elements share a username, and
    no username or password is empty. *)
Definition users_ok (users : list user) : Prop :=
  NoDup (username <$> users)
  ∧ Forall (λ u, username u ≠ "" ∧ password u ≠ "") users.

(** A request that is not a PUT on a name without "@". *)
Definition put_on_email (rq : Router.request) : bool :=
  match rq with
  | Router.Put email _ => includes "@" email
  | _ => true
  end.

(** The names of the fields an object carries, in the order in which the
    PUT handler looks at them. *)
Definition provided_name (f : field) (updates : partial) : list string :=
  match partial_get f updates with
  | Some _ => [field_name f]
  | None => []
  end.

Definition provided_names (updates : partial) : list string :=
  (provided_name FirstName updates ++ provided_name LastName updates
   ++ provided_name Dob updates)%list.

(** Writing every field an object carries. *)
Definition write_field (f : field) (updates : partial) (r : friend) : friend :=
  match partial_get f updates with
  | Some v => friend_set f v r
  | None => r
  end.

Definition write_all (updates : partial) (r : friend) : friend :=
  write_field Dob updates (write_field LastName updates (write_field FirstName updates r)).

(** The 200 answer of PUT in the shorter revision of the router. *)
Definition basic_updated (r : friend) (names : list string) : response :=
  {| status := 200; success := true;
     message := Some (match names with
                      | [] => "No fields were updated"
                      | _ => "Friend updated. Fields modified: " +:+ join ", " names
                      end);
     data := Some (DFriend r);
     updatedFields := None; count := None; remainingCount := None |}.

End App.

(** ** Facts about the JavaScript primitives *)

Module JsFacts.
Import Js.

Lemma prefix_append (n s : string) :
  String.prefix n s = true ↔ ∃ post, s = n +:+ post.
Proof.
  revert s. induction n as [|a n IH]; intros s; simpl.
  - destruct s; split; eauto.
  - destruct s as [|b s]; simpl.
    + split; [done | intros [post Hp]; discriminate Hp].
    + destruct (Ascii.ascii_dec a b) as [->|Hne].
      * rewrite IH. split; intros [post Hp]; exists post.
        -- by rewrite Hp.
        -- by injection Hp.
      * split; [done | intros [post Hp]; injection Hp; congruence].
Qed.

Lemma includes_nil (n : string) : includes n "" = String.prefix n "".
Proof. simpl. by destruct n. Qed.

Lemma includes_cons (n : string) (c : Ascii.ascii) (s : string) :
  includes n (String c s) = String.prefix n (String c s) || includes n s.
Proof. reflexivity. Qed.

(** [includes] decides the substring relation. *)
Lemma includes_substring (n s : string) :
  includes n s = true ↔ substring_of n s.
Proof.
  unfold substring_of. induction s as [|c s IH].
  - rewrite includes_nil, prefix_append. split.
    + intros [post Hp]. exists "", post. exact Hp.
    + intros (pre & post & Heq). destruct pre; [| discriminate Heq].
      exists post. exact Heq.
  - rewrite includes_cons, orb_true_iff, IH, prefix_append. split.
    + intros [[post Hp] | (pre & post & ->)].
      * exists "", post. exact Hp.
      * by exists (String c pre), post.
    + intros (pre & post & Heq). destruct pre as [|c' pre].
      * left. exists post. exact Heq.
      * right. injection Heq as -> ->. eauto.
Qed.

Lemma truthy_Some (s : string) : truthy (Some s) = true ↔ s ≠ "".
Proof.
  simpl. destruct (String.eqb_spec s ""); simpl; split; congruence.
Qed.

Lemma friend_get_set (f g : field) (v : string) (r : friend) :
  friend_get f (friend_set g v r) = if decide (f = g) then v else friend_get f r.
Proof. destruct f, g; reflexivity. Qed.

Lemma friend_set_same (f : field) (r : friend) : friend_set f (friend_get f r) r = r.
Proof. destruct f, r; reflexivity. Qed.

Lemma field_name_inj (f g : field) : field_name f = field_name g → f = g.
Proof. destruct f, g; simpl; congruence. Qed.

Lemma lookup_own (st : store) (email : string) (r : friend) :
  friends st !! email = Some r → lookup st email = RFriend r.
Proof. intros Hr. unfold lookup. by rewrite Hr. Qed.

(** A falsy [friends[key]] means that [key] is not an own property. *)
Lemma falsy_not_own (st : store) (key : string) :
  ref_truthy (lookup st key) = false → friends st !! key = None.
Proof. unfold lookup. destruct (friends st !! key); [discriminate | done]. Qed.

Lemma object_keys_length (st : store) :
  length (object_keys st) = size (dom (friends st)).
Proof.
  unfold object_keys. rewrite length_fmap, length_map_to_list. symmetry. apply size_dom.
Qed.

End JsFacts.

(** ** The friends router *)

Module RouterFacts.
Import Js Http Router Spec JsFacts.

Lemma define_own_id (st : store) (email : string) (r : friend) :
  friends st !! email = Some r → define_own st email r = st.
Proof.
  intros Hr. destruct st as [fr op mp]. unfold define_own; simpl in *.
  by rewrite insert_id.
Qed.

Lemma define_own_twice (st : store) (email : string) (r r' : friend) :
  define_own (define_own st email r) email r' = define_own st email r'.
Proof. unfold define_own; simpl. by rewrite insert_insert_eq. Qed.

Lemma define_own_lookup (st : store) (email : string) (r : friend) :
  friends (define_own st email r) !! email = Some r.
Proof. simpl. apply lookup_insert_eq. Qed.

Lemma assign_own (st : store) (email : string) (r : friend) (f : field) (v : string) :
  friends st !! email = Some r →
  assign st email f v = define_own st email (friend_set f v r).
Proof. intros Hr. unfold assign. by rewrite (lookup_own _ _ _ Hr). Qed.

Lemma incoming_get (st : store) (updates : partial) (f : field) :
  partial_get f (incoming st updates) = body_get st updates f.
Proof. by destruct f. Qed.

(** A field that the body carries is read from the body. *)
Lemma incoming_present (st : store) (updates : partial) (f : field) (v : string) :
  partial_get f updates = Some v → partial_get f (incoming st updates) = Some v.
Proof. intros Hv. rewrite incoming_get. unfold body_get. by rewrite Hv. Qed.

(** While [Object.prototype] has none of the three properties, the body is
    read as it was sent. *)
Lemma incoming_clean (st : store) (updates : partial) :
  object_prototype st = no_fields → incoming st updates = updates.
Proof.
  intros Hop. destruct updates as [a b c]. unfold incoming, body_get. rewrite Hop.
  simpl. by destruct a, b, c.
Qed.

(** One update block, on an own property of [friends]. *)
Lemma update_field_own (st : store) (email : string) (r : friend)
    (updates : partial) (f : field) (l : list string) :
  friends st !! email = Some r →
  update_field email updates f (st, l)
  = (define_own st email (apply_field f (incoming st updates) r),
     (l ++ changed_name f (incoming st updates) r)%list).
Proof.
  intros Hr. unfold update_field, apply_field, changed_name.
  rewrite incoming_get, (lookup_own _ _ _ Hr). simpl.
  destruct (body_get st updates f) as [v|].
  - destruct (decide (v = friend_get f r)) as [->|Hne].
    + repeat (rewrite decide_False by (intros Hx; by apply Hx)).
      rewrite define_own_id by done. by rewrite app_nil_r.
    + repeat (rewrite decide_True by congruence).
      by rewrite (assign_own _ _ r).
  - rewrite define_own_id by done. by rewrite app_nil_r.
Qed.

Lemma changed_name_apply (f g : field) (updates : partial) (r : friend) :
  f ≠ g → changed_name f updates (apply_field g updates r) = changed_name f updates r.
Proof.
  intros Hne. unfold changed_name, apply_field.
  destruct (partial_get g updates) as [w|]; [| done].
  destruct (decide (w ≠ friend_get g r)); [| done].
  rewrite friend_get_set. by rewrite decide_False.
Qed.

Lemma updated_fields_member (changed : list string) :
  (if decide (0 < length changed) then Some changed else None)
  = match changed with [] => None | _ => Some changed end.
Proof. by destruct changed. Qed.

(** PUT on a stored record: the handler computes what the specification's
    update computes on the fields it reads from the body. *)
Lemma update_own (st : store) (email : string) (r : friend) (updates : partial) :
  friends st !! email = Some r →
  update email updates st
  = (define_own st email (spec_update (incoming st updates) r),
     updated email (spec_update (incoming st updates) r)
                   (spec_changed (incoming st updates) r)).
Proof.
  intros Hr. unfold update. rewrite (lookup_own _ _ _ Hr). cbn [ref_truthy negb].
  rewrite (update_field_own _ _ r) by done.
  rewrite (update_field_own _ _ _ _ _ _ (define_own_lookup _ _ _)).
  rewrite define_own_twice.
  rewrite (update_field_own _ _ _ _ _ _ (define_own_lookup _ _ _)).
  rewrite define_own_twice.
  change (incoming (define_own _ _ _) updates) with (incoming st updates).
  rewrite (lookup_own _ _ _ (define_own_lookup _ _ _)).
  rewrite updated_fields_member.
  set (u := incoming st updates).
  rewrite (changed_name_apply LastName FirstName) by done.
  assert (changed_name Dob u (apply_field LastName u (apply_field FirstName u r))
          = changed_name Dob u r) as ->.
  { rewrite !changed_name_apply; done. }
  unfold updated, spec_update, spec_changed. simpl. by rewrite <- app_assoc.
Qed.

Lemma changed_name_elem (f g : field) (updates : partial) (r : friend) :
  field_name f ∈ changed_name g updates r
  ↔ f = g ∧ ∃ v, partial_get g updates = Some v ∧ v ≠ friend_get g r.
Proof.
  unfold changed_name. destruct (partial_get g updates) as [v|].
  - case_decide.
    + rewrite list_elem_of_singleton. split.
      * intros Hn. apply field_name_inj in Hn. eauto.
      * by intros [-> _].
    + rewrite elem_of_nil. split; [done |]. intros (_ & w & [= <-] & Hw). done.
  - rewrite elem_of_nil. split; [done |]. by intros (_ & w & ? & _).
Qed.

Lemma spec_changed_elem (f : field) (updates : partial) (r : friend) :
  field_name f ∈ spec_changed updates r
  ↔ ∃ v, partial_get f updates = Some v ∧ v ≠ friend_get f r.
Proof.
  unfold spec_changed. rewrite !elem_of_app, !changed_name_elem.
  split.
  - intros [(-> & Hv) | [(-> & Hv) | (-> & Hv)]]; exact Hv.
  - intros Hv. destruct f; eauto.
Qed.

Lemma apply_field_get (f g : field) (updates : partial) (r : friend) :
  friend_get f (apply_field g updates r)
  = if decide (f = g) then default (friend_get f r) (partial_get g updates)
    else friend_get f r.
Proof.
  unfold apply_field. destruct (partial_get g updates) as [v|]; simpl.
  - destruct (decide (v = friend_get g r)) as [->|Hne].
    + rewrite decide_False by (intros Hx; by apply Hx). case_decide; by subst.
    + rewrite decide_True by done. by rewrite friend_get_set.
  - by case_decide.
Qed.

Lemma spec_update_get (f : field) (updates : partial) (r : friend) :
  friend_get f (spec_update updates r) = default (friend_get f r) (partial_get f updates).
Proof.
  unfold spec_update. rewrite !apply_field_get. destruct f; by repeat case_decide.
Qed.

Lemma changed_nil_apply (f : field) (updates : partial) (r : friend) :
  changed_name f updates r = [] → apply_field f updates r = r.
Proof.
  unfold changed_name, apply_field. destruct (partial_get f updates); [| done].
  by case_decide.
Qed.

Lemma spec_changed_nil (updates : partial) (r : friend) :
  spec_changed updates r = [] → spec_update updates r = r.
Proof.
  unfold spec_changed, spec_update. intros Hnil.
  apply app_eq_nil in Hnil as [H1 Hnil]. apply app_eq_nil in Hnil as [H2 H3].
  rewrite (changed_nil_apply _ _ _ H1), (changed_nil_apply _ _ _ H2).
  by apply changed_nil_apply.
Qed.

(** C1, as the code has it. PUT on the email of a stored record: a field
    that the body carries is written, and its name collected, exactly when
    the incoming value differs from the stored one; a body value equal to the
    stored one changes nothing and is not collected. The [updatedFields]
    member of the response is the collected list when it is not empty, and is
    absent ([undefined]) when no field was changed. *)
Theorem update_changed_semantics (st : store) (email : string) (r : friend)
    (updates : partial) :
  friends st !! email = Some r →
  ∃ r' changed,
    update email updates st = (define_own st email r', updated email r' changed)
    ∧ (∀ f v, partial_get f updates = Some v →
         (field_name f ∈ changed ↔ v ≠ friend_get f r) ∧ friend_get f r' = v)
    ∧ (changed = [] → r' = r ∧ updatedFields (updated email r' changed) = None)
    ∧ (changed ≠ [] → updatedFields (updated email r' changed) = Some changed).
Proof.
  intros Hr. exists (spec_update (incoming st updates) r),
                    (spec_changed (incoming st updates) r).
  split; [by apply update_own |]. split; [| split].
  - intros f v Hv. pose proof (incoming_present st _ _ _ Hv) as Hin.
    rewrite spec_changed_elem, spec_update_get, Hin. split; [| done].
    split; [intros (w & [= <-] & Hw); done | eauto].
  - intros Hnil. split; [by apply spec_changed_nil |]. simpl. by rewrite Hnil.
  - intros Hne. simpl. by destruct (spec_changed (incoming st updates) r).
Qed.

Lemma update_changed_semantics_witness :
  friends init !! "johnsmith@gmail.com" = Some (Friend "John" "Doe" "22-12-1990")
  ∧ ∃ r' changed,
      update "johnsmith@gmail.com" (Partial (Some "Z") None None) init
      = (define_own init "johnsmith@gmail.com" r',
         updated "johnsmith@gmail.com" r' changed)
      ∧ (∀ f v, partial_get f (Partial (Some "Z") None None) = Some v →
           (field_name f ∈ changed ↔ v ≠ friend_get f (Friend "John" "Doe" "22-12-1990"))
           ∧ friend_get f r' = v)
      ∧ (changed = [] → r' = Friend "John" "Doe" "22-12-1990"
                        ∧ updatedFields (updated "johnsmith@gmail.com" r' changed) = None)
      ∧ (changed ≠ [] →
         updatedFields (updated "johnsmith@gmail.com" r' changed) = Some changed).
Proof.
  split; [reflexivity |].
  apply (update_changed_semantics init "johnsmith@gmail.com"
           (Friend "John" "Doe" "22-12-1990") (Partial (Some "Z") None None)).
  reflexivity.
Defined.

(** C1, as the specification states it, fails: sending John's stored first
    name again is answered with 200 and no [updatedFields] member at all,
    not with an empty list. *)
Lemma update_unchanged_list_absent :
  let resp := (update "johnsmith@gmail.com" (Partial (Some "John") None None) init).2 in
  friends init !! "johnsmith@gmail.com" = Some (Friend "John" "Doe" "22-12-1990")
  ∧ status resp = 200 ∧ updatedFields resp = None ∧ updatedFields resp ≠ Some [].
Proof. vm_compute. by repeat split. Qed.

(** The two examples of the specification, on John's record. *)
Example update_same_first_name :
  update "johnsmith@gmail.com" (Partial (Some "John") None None) init
  = (init, updated "johnsmith@gmail.com" (Friend "John" "Doe" "22-12-1990") []).
Proof. by vm_compute. Qed.

Example update_new_first_name :
  (update "johnsmith@gmail.com" (Partial (Some "Z") None None) init).2
  = updated "johnsmith@gmail.com" (Friend "Z" "Doe" "22-12-1990") ["firstName"].
Proof. by vm_compute. Qed.

(** *** POST /friends *)

Lemma required_Some (v : option string) (s : string) :
  required v = Some s ↔ v = Some s ∧ s ≠ "".
Proof.
  unfold required. destruct v as [x|]; simpl.
  - destruct (String.eqb_spec x ""); simpl; split.
    + done.
    + intros [[= ->] Hne]. done.
    + intros [= ->]. done.
    + by intros [-> _].
  - split; [done | by intros [? _]].
Qed.

Lemma required_given (s : string) : s ≠ "" → required (Some s) = Some s.
Proof. intros Hs. by apply required_Some. Qed.

Lemma create_stores (st : store) (email : string) (r : friend) :
  to_json (define_own st email r) (lookup (define_own st email r) email)
  = Some (DFriend r).
Proof. by rewrite (lookup_own _ _ _ (define_own_lookup _ _ _)). Qed.

(** A branch in which the handler answered with an error, while the
    response at hand is a success. *)
Ltac rejected Hc Hs := injection Hc as <- <-; discriminate Hs.

(** What a 201 answer of POST /friends tells about the request and the
    new state. *)
Lemma create_success (body : create_body) (st st1 : store) (r1 : response) :
  create body st = (st1, r1) → status r1 = 201 →
  ∃ email fn ln d,
    b_email body = Some email
    ∧ st1 = define_own st email (Friend fn ln d)
    ∧ r1 = created (Friend fn ln d)
    ∧ friends st !! email = None
    ∧ includes "@" email = true ∧ includes "." email = true
    ∧ body_get st (b_fields body) FirstName = Some fn
    ∧ body_get st (b_fields body) LastName = Some ln
    ∧ body_get st (b_fields body) Dob = Some d.
Proof.
  unfold create. intros Hc Hs.
  destruct (required (b_email body)) as [email|] eqn:He;
    [| rejected Hc Hs].
  destruct (required (body_get st (b_fields body) FirstName)) as [fn|] eqn:Hfn;
    [| rejected Hc Hs].
  destruct (required (body_get st (b_fields body) LastName)) as [ln|] eqn:Hln;
    [| rejected Hc Hs].
  destruct (required (body_get st (b_fields body) Dob)) as [d|] eqn:Hd;
    [| rejected Hc Hs].
  destruct (includes "@" email) eqn:Hat; [| rejected Hc Hs].
  destruct (includes "." email) eqn:Hdot; [| rejected Hc Hs].
  simpl in Hc.
  destruct (ref_truthy (lookup st email)) eqn:Ht; [rejected Hc Hs |].
  rewrite create_stores in Hc. injection Hc as <- <-.
  apply required_Some in He as [He _]. apply required_Some in Hfn as [Hfn _].
  apply required_Some in Hln as [Hln _]. apply required_Some in Hd as [Hd _].
  exists email, fn, ln, d. repeat split; try done. by apply falsy_not_own.
Qed.

(** POST /friends with the four fields present and non-empty: the three
    checks that remain, in the order of the handler. *)
Lemma create_given (st : store) (email fn ln d : string) :
  email ≠ "" → fn ≠ "" → ln ≠ "" → d ≠ "" →
  create (CreateBody (Some email) (Partial (Some fn) (Some ln) (Some d))) st
  = if negb (includes "@" email) || negb (includes "." email) then (st, invalid_email)
    else if ref_truthy (lookup st email) then (st, already_exists email)
    else (define_own st email (Friend fn ln d), created (Friend fn ln d)).
Proof.
  intros He Hf Hl Hd. unfold create, body_get. simpl.
  rewrite !required_given by done.
  repeat case_match; try done. by rewrite create_stores.
Qed.

(** C4. POST /friends with the four fields non-empty: the email passes the
    format check exactly when it contains both "@" and "." as substrings;
    then the request goes on to the duplicate check and, past it, the record
    is stored whatever else the email looks like. Otherwise the answer is
    400 "Please provide a valid email address" and nothing is stored. *)
Theorem create_email_check (st : store) (email fn ln d : string) :
  email ≠ "" → fn ≠ "" → ln ≠ "" → d ≠ "" →
  let body := CreateBody (Some email) (Partial (Some fn) (Some ln) (Some d)) in
  (substring_of "@" email ∧ substring_of "." email →
     create body st
     = if ref_truthy (lookup st email) then (st, already_exists email)
       else (define_own st email (Friend fn ln d), created (Friend fn ln d)))
  ∧ (¬ (substring_of "@" email ∧ substring_of "." email) →
     create body st = (st, invalid_email))
  ∧ ((create body st).2 ≠ invalid_email
     ↔ substring_of "@" email ∧ substring_of "." email).
Proof.
  intros He Hf Hl Hd body. unfold body.
  rewrite (create_given st email fn ln d He Hf Hl Hd), <- !includes_substring.
  destruct (includes "@" email), (includes "." email); simpl.
  - split; [done |]. split; [intros Hn; exfalso; by apply Hn |].
    split; [done | intros _]. by destruct (ref_truthy (lookup st email)).
  - split; [by intros [_ ?] |]. split; [done |]. split; [done | by intros [_ ?]].
  - split; [by intros [? _] |]. split; [done |]. split; [done | by intros [? _]].
  - split; [by intros [? _] |]. split; [done |]. split; [done | by intros [? _]].
Qed.

Lemma create_email_check_witness :
  let body := CreateBody (Some "a@b.com") (Partial (Some "A") (Some "B") (Some "01-01-2000")) in
  (substring_of "@" "a@b.com" ∧ substring_of "." "a@b.com" →
     create body init
     = if ref_truthy (lookup init "a@b.com") then (init, already_exists "a@b.com")
       else (define_own init "a@b.com" (Friend "A" "B" "01-01-2000"),
             created (Friend "A" "B" "01-01-2000")))
  ∧ (¬ (substring_of "@" "a@b.com" ∧ substring_of "." "a@b.com") →
     create body init = (init, invalid_email))
  ∧ ((create body init).2 ≠ invalid_email
     ↔ substring_of "@" "a@b.com" ∧ substring_of "." "a@b.com").
Proof.
  apply (create_email_check init "a@b.com" "A" "B" "01-01-2000"); discriminate.
Defined.

(** The shorter revision of the router has no format check: an email
    without "@" is stored. *)
Example basic_create_no_email_check :
  (RouterBasic.create
     (CreateBody (Some "abc") (Partial (Some "A") (Some "B") (Some "01-01-2000"))) init).2
  = created (Friend "A" "B" "01-01-2000").
Proof. by vm_compute. Qed.

(** *** DELETE /friends/:email *)

(** No name that [friends] inherits contains an "@". *)
Lemma inherited_at (st : store) (key : string) :
  includes "@" key = true → inherited st key = RUndefined.
Proof.
  intros Hat. unfold inherited, inherited_string.
  repeat case_decide; subst; try discriminate Hat; try done.
  exfalso. unfold prototype_methods in *.
  repeat match goal with
         | H : _ ∈ _ :: _ |- _ => apply elem_of_cons in H as [-> | H]; [discriminate Hat |]
         | H : _ ∈ [] |- _ => by apply elem_of_nil in H
         end.
Qed.

(** DELETE of a key for which [friends[email]] is falsy. *)
Lemma remove_falsy (st : store) (email : string) :
  ref_truthy (lookup st email) = false → remove email st = (st, not_found email).
Proof. intros Hf. unfold remove. by rewrite Hf. Qed.

(** DELETE of a stored record. *)
Lemma remove_own (st : store) (email : string) (r : friend) :
  friends st !! email = Some r →
  remove email st
  = (delete_own st email,
     removed email (DFriend r) (size (dom (delete email (friends st))))).
Proof.
  intros Hr. unfold remove. rewrite (lookup_own _ _ _ Hr). simpl.
  by rewrite object_keys_length.
Qed.

Lemma get_one_falsy (st : store) (email : string) :
  ref_truthy (lookup st email) = false → get_one email st = (st, not_found email).
Proof. intros Hf. unfold get_one. by rewrite Hf. Qed.

Lemma get_one_own (st : store) (email : string) (r : friend) :
  friends st !! email = Some r → get_one email st = (st, found email r).
Proof. intros Hr. unfold get_one. by rewrite (lookup_own _ _ _ Hr). Qed.

(** After the DELETE of a stored record whose email contains an "@", GET
    on that email is answered with 404. *)
Lemma get_after_remove (st : store) (email : string) (r : friend) :
  friends st !! email = Some r → includes "@" email = true →
  get_one email (remove email st).1 = ((remove email st).1, not_found email).
Proof.
  intros Hr Hat. rewrite (remove_own _ _ r) by done. simpl.
  apply get_one_falsy. unfold lookup. simpl. rewrite lookup_delete_eq.
  by rewrite inherited_at.
Qed.

(** C5 fails on the code. "constructor" is not a key of the store, yet
    [friends["constructor"]] is the function inherited from
    [Object.prototype], which is truthy: DELETE /friends/constructor passes
    the existence check and is answered with 200, an empty object as the
    deleted record and the count of the three records still stored, where
    the claim has NotFound. *)
Theorem remove_inherited_name :
  friends init !! "constructor" = None
  ∧ remove "constructor" init
    = (init, removed "constructor" (DProps no_fields) 3)
  ∧ status (remove "constructor" init).2 = 200.
Proof. by vm_compute. Qed.

(** *** GET /friends *)

Lemma list_all_listed (st : store) :
  list_all st = (st, listed (friends st) (size (dom (friends st)))).
Proof. unfold list_all, listed. by rewrite object_keys_length. Qed.

Lemma remove_after_create (st : store) (email : string) (r : friend) :
  friends st !! email = None →
  remove email (define_own st email r)
  = (st, removed email (DFriend r) (size (dom (friends st)))).
Proof.
  intros Hn. rewrite (remove_own _ _ r) by apply define_own_lookup.
  unfold delete_own, define_own. simpl.
  rewrite delete_insert_eq, (delete_id _ _ Hn). by destruct st.
Qed.

(** C7. In every state the router can reach, GET /friends is answered
    with 200 and a count equal to the number of keys of the store; and when a
    POST is answered with 201 and the DELETE of the same email follows, that
    DELETE is answered with 200 and the count is back to what it was before
    the POST. *)
Theorem list_all_count (st : store) :
  reachable st →
  list_all st = (st, listed (friends st) (size (dom (friends st))))
  ∧ ∀ body email st1 r1,
      create body st = (st1, r1) → status r1 = 201 → b_email body = Some email →
      status (remove email st1).2 = 200
      ∧ count (list_all (remove email st1).1).2 = count (list_all st).2.
Proof.
  intros _. split; [apply list_all_listed |].
  intros body email st1 r1 Hc Hs He.
  destruct (create_success _ _ _ _ Hc Hs) as (e & fn & ln & d & He' & -> & _ & Hn & _).
  assert (e = email) as -> by congruence.
  by rewrite remove_after_create.
Qed.

Lemma list_all_count_witness :
  let st := (handle (Put "annasmith@gmail.com" (Partial None (Some "Jones") None)) init).1 in
  reachable st
  ∧ list_all st = (st, listed (friends st) (size (dom (friends st))))
  ∧ ∀ body email st1 r1,
      create body st = (st1, r1) → status r1 = 201 → b_email body = Some email →
      status (remove email st1).2 = 200
      ∧ count (list_all (remove email st1).1).2 = count (list_all st).2.
Proof.
  intros st.
  assert (Hst : reachable st) by apply reachable_step, reachable_init.
  split; [exact Hst | exact (list_all_count st Hst)].
Defined.

(** The example of the specification: one POST, one DELETE, and the
    count is 3 again. *)
Example count_returns :
  let st1 := (create (CreateBody (Some "a@b.com")
                        (Partial (Some "A") (Some "B") (Some "01-01-2000"))) init).1 in
  count (list_all init).2 = Some 3
  ∧ count (list_all st1).2 = Some 4
  ∧ count (list_all (remove "a@b.com" st1).1).2 = Some 3.
Proof. by vm_compute. Qed.

(** *** The frame of PUT /friends/:email *)

Lemma assign_other (st : store) (email other : string) (f : field) (v : string) :
  other ≠ email → friends (assign st email f v) !! other = friends st !! other.
Proof.
  intros Hne. unfold assign. destruct (lookup st email); simpl; try done.
  by rewrite lookup_insert_ne.
Qed.

Lemma update_field_other (email other : string) (updates : partial) (f : field)
    (acc : store * list string) :
  other ≠ email →
  friends (update_field email updates f acc).1 !! other = friends acc.1 !! other.
Proof.
  intros Hne. destruct acc as [st l]. unfold update_field.
  destruct (body_get st updates f); [| done].
  case_decide; [| done]. simpl. by apply assign_other.
Qed.

(** PUT leaves the records stored under every other email as they were. *)
Lemma update_other_emails (st : store) (email other : string) (updates : partial) :
  other ≠ email →
  friends (update email updates st).1 !! other = friends st !! other.
Proof.
  intros Hne. unfold update. destruct (negb (ref_truthy (lookup st email))); [done |].
  set (steps := update_field email updates Dob _).
  transitivity (friends steps.1 !! other); [by destruct steps |].
  unfold steps. by rewrite !update_field_other.
Qed.

(** PUT on a stored record keeps every field that the handler does not
    read a value for, neither from the body nor from [Object.prototype]. *)
Lemma update_keeps_unread_field (st : store) (email : string) (r : friend)
    (updates : partial) (f : field) :
  friends st !! email = Some r → body_get st updates f = None →
  ∃ r', friends (update email updates st).1 !! email = Some r'
        ∧ friend_get f r' = friend_get f r.
Proof.
  intros Hr Hf. rewrite (update_own _ _ r) by done. eexists. split.
  - apply define_own_lookup.
  - by rewrite spec_update_get, incoming_get, Hf.
Qed.

(** While no request has put one of the three properties on
    [Object.prototype], the fields absent from the body keep their value. *)
Lemma update_frame_clean (st : store) (email : string) (r : friend)
    (updates : partial) (f : field) :
  object_prototype st = no_fields →
  friends st !! email = Some r → partial_get f updates = None →
  ∃ r', friends (update email updates st).1 !! email = Some r'
        ∧ friend_get f r' = friend_get f r.
Proof.
  intros Hop Hr Hf. apply update_keeps_unread_field; [done |].
  unfold body_get. rewrite Hf, Hop. by destruct f.
Qed.

(** C8 fails on the code. PUT /friends/__proto__ with a first name passes
    the existence check, [friends["__proto__"]] being [Object.prototype], and
    writes [firstName] there. From then on every parsed body inherits that
    property: a PUT on John's email with an empty body reads
    [updates.firstName] as "Eve", overwrites John's first name and reports
    [firstName] as changed, although the partial fields do not contain it. *)
Theorem update_writes_absent_field :
  let st1 := (update "__proto__" (Partial (Some "Eve") None None) init).1 in
  friends st1 !! "johnsmith@gmail.com" = Some (Friend "John" "Doe" "22-12-1990")
  ∧ partial_get FirstName no_fields = None
  ∧ update "johnsmith@gmail.com" no_fields st1
    = (define_own st1 "johnsmith@gmail.com" (Friend "Eve" "Doe" "22-12-1990"),
       updated "johnsmith@gmail.com" (Friend "Eve" "Doe" "22-12-1990") ["firstName"]).
Proof. by vm_compute. Qed.

(** *** The initial store *)

Lemma initial_keys (key : string) :
  is_Some (friends init !! key) ↔ key ∈ initial_emails.
Proof.
  unfold init, initial_friends, initial_emails. simpl.
  rewrite !lookup_insert_is_Some, lookup_empty, !elem_of_cons, elem_of_nil.
  split.
  - intros [-> | [_ [-> | [_ [-> | [_ Hn]]]]]]; eauto. by destruct Hn.
  - intros [-> | [-> | [-> | []]]].
    + by left.
    + right. split; [done |]. by left.
    + right. split; [done |]. right. split; [done |]. by left.
Qed.

Lemma initial_emails_cases (P : string → Prop) :
  P "johnsmith@gmail.com" → P "annasmith@gmail.com" → P "peterjones@gmail.com" →
  ∀ email, email ∈ initial_emails → P email.
Proof.
  intros HJ HA HP email. unfold initial_emails.
  rewrite !elem_of_cons, elem_of_nil. by intros [-> | [-> | [-> | []]]].
Qed.

(** C9. At process start the store holds exactly the three records of
    John, Anna and Peter: GET /friends counts 3, and a POST that carries one
    of these emails and the three other fields is answered with 400
    "already exists" and stores nothing. *)
Theorem initial_store :
  (∀ key, is_Some (friends init !! key) ↔ key ∈ initial_emails)
  ∧ friends init !! "johnsmith@gmail.com" = Some (Friend "John" "Doe" "22-12-1990")
  ∧ friends init !! "annasmith@gmail.com" = Some (Friend "Anna" "Smith" "02-07-1983")
  ∧ friends init !! "peterjones@gmail.com" = Some (Friend "Peter" "Jones" "21-03-1989")
  ∧ list_all init = (init, listed (friends init) 3)
  ∧ ∀ email fn ln d,
      email ∈ initial_emails → fn ≠ "" → ln ≠ "" → d ≠ "" →
      create (CreateBody (Some email) (Partial (Some fn) (Some ln) (Some d))) init
      = (init, already_exists email).
Proof.
  split; [exact initial_keys |].
  split; [done |]. split; [done |]. split; [done |]. split; [by vm_compute |].
  intros email fn ln d Hin Hf Hl Hd. revert email Hin.
  apply initial_emails_cases; by rewrite create_given.
Qed.

Lemma initial_store_witness :
  "annasmith@gmail.com" ∈ initial_emails
  ∧ create (CreateBody (Some "annasmith@gmail.com")
              (Partial (Some "Ann") (Some "S") (Some "01-01-2001"))) init
    = (init, already_exists "annasmith@gmail.com").
Proof.
  assert (Hin : "annasmith@gmail.com" ∈ initial_emails) by (vm_compute; set_solver).
  split; [exact Hin |].
  apply (proj2 (proj2 (proj2 (proj2 (proj2 initial_store))))
           "annasmith@gmail.com" "Ann" "S" "01-01-2001" Hin); discriminate.
Defined.

(** *** Round trip: POST, n PUT, GET *)

Lemma friend_ext (r r' : friend) :
  (∀ f, friend_get f r = friend_get f r') → r = r'.
Proof.
  intros Hf. destruct r, r'.
  pose proof (Hf FirstName). pose proof (Hf LastName). pose proof (Hf Dob).
  simpl in *. congruence.
Qed.

Lemma replay_field_get (names : list string) (r' acc : friend) (f g : field) :
  friend_get f (replay_field names r' g acc)
  = if decide (f = g ∧ field_name g ∈ names) then friend_get f r' else friend_get f acc.
Proof.
  unfold replay_field. case_bool_decide as Hin.
  - rewrite friend_get_set. destruct (decide (f = g)) as [->|Hne].
    + by rewrite decide_True.
    + rewrite decide_False; [done | by intros [? _]].
  - rewrite decide_False; [done | by intros [_ ?]].
Qed.

(** Replaying what an update reports on the record it started from gives
    the record it returns: the fields it does not name were not changed. *)
Lemma replay_updated (email : string) (updates : partial) (r : friend) :
  replay r (updated email (spec_update updates r) (spec_changed updates r))
  = spec_update updates r.
Proof.
  unfold replay. simpl.
  replace (default [] match spec_changed updates r with
                      | [] => None
                      | _ :: _ => Some (spec_changed updates r)
                      end) with (spec_changed updates r)
    by (by destruct (spec_changed updates r)).
  apply friend_ext. intros f. rewrite !replay_field_get.
  assert (Hkeep : field_name f ∉ spec_changed updates r →
                  friend_get f (spec_update updates r) = friend_get f r).
  { rewrite spec_changed_elem, spec_update_get. intros Hn.
    destruct (partial_get f updates) as [v|]; [| done]. simpl.
    destruct (decide (v = friend_get f r)); [done |]. exfalso. eauto. }
  destruct (decide (field_name f ∈ spec_changed updates r)) as [Hin|Hnin].
  - destruct f.
    + do 2 (rewrite decide_False by (by intros [? _])). by rewrite decide_True.
    + rewrite decide_False by (by intros [? _]). by rewrite decide_True.
    + by rewrite decide_True.
  - repeat (rewrite decide_False by (intros [-> ?]; by apply Hnin)).
    symmetry. by apply Hkeep.
Qed.

Lemma run_cons (rq : request) (rest : list request) (st : store) :
  run (rq :: rest) st
  = ((run rest (handle rq st).1).1, (handle rq st).2 :: (run rest (handle rq st).1).2).
Proof.
  change (run (rq :: rest) st)
    with (let '(st1, r) := handle rq st in
          let '(st2, rs) := run rest st1 in (st2, r :: rs)).
  destruct (handle rq st) as [st1 r]. cbn [fst snd]. by destruct (run rest st1).
Qed.

(** n PUTs on the email of a stored record. *)
Lemma run_updates (email : string) (bodies : list partial) :
  ∀ (st : store) (r : friend),
    friends st !! email = Some r →
    friends (run (updates_on email bodies) st).1 !! email
    = Some (foldl replay r (run (updates_on email bodies) st).2)
    ∧ Forall (λ resp, status resp = 200) (run (updates_on email bodies) st).2
    ∧ foldl replay r (run (updates_on email bodies) st).2
      = foldl (λ acc u, spec_update (incoming st u) acc) r bodies.
Proof.
  induction bodies as [|u rest IH]; intros st r Hr.
  - simpl. by repeat split.
  - unfold updates_on. rewrite fmap_cons, run_cons. fold (updates_on email rest).
    simpl handle. rewrite (update_own _ _ r) by done. cbn [fst snd].
    destruct (IH (define_own st email (spec_update (incoming st u) r))
                 (spec_update (incoming st u) r) (define_own_lookup _ _ _))
      as (Hget & Hok & Hspec).
    cbn [foldl]. rewrite replay_updated. repeat split; [done | | done].
    by constructor.
Qed.

Lemma foldl_incoming_clean (st : store) (bodies : list partial) :
  object_prototype st = no_fields →
  ∀ r, foldl (λ acc u, spec_update (incoming st u) acc) r bodies
       = foldl (λ acc u, spec_update u acc) r bodies.
Proof.
  intros Hop. induction bodies as [|u rest IH]; intros r; [done |].
  simpl. rewrite incoming_clean by done. apply IH.
Qed.

(** C6. A POST answered with 201, any number of PUTs on the same email,
    then a GET: every PUT is answered with 200, and the GET returns the
    record of the POST with the changed fields reported by the PUTs applied
    in order. While [Object.prototype] has none of the three properties,
    these are the fields of each PUT body whose value differs from the
    stored one. *)
Theorem round_trip (st st1 : store) (r1 : response) (email fn ln d : string)
    (bodies : list partial) :
  create (CreateBody (Some email) (Partial (Some fn) (Some ln) (Some d))) st = (st1, r1) →
  status r1 = 201 →
  let res := run (updates_on email bodies) st1 in
  r1 = created (Friend fn ln d)
  ∧ Forall (λ resp, status resp = 200) res.2
  ∧ get_one email res.1 = (res.1, found email (foldl replay (Friend fn ln d) res.2))
  ∧ (object_prototype st = no_fields →
     foldl replay (Friend fn ln d) res.2
     = foldl (λ acc u, spec_update u acc) (Friend fn ln d) bodies).
Proof.
  intros Hc Hs res.
  destruct (create_success _ _ _ _ Hc Hs)
    as (e & fn' & ln' & d' & [= <-] & -> & -> & _ & _ & _ & [= <-] & [= <-] & [= <-]).
  destruct (run_updates email bodies _ _ (define_own_lookup st email (Friend fn ln d)))
    as (Hget & Hok & Hspec).
  fold res in Hget, Hok, Hspec.
  split; [done |]. split; [done |]. split; [by apply get_one_own |].
  intros Hop. rewrite Hspec. apply foldl_incoming_clean. exact Hop.
Qed.

Lemma round_trip_witness :
  let body := CreateBody (Some "a@b.com") (Partial (Some "A") (Some "B") (Some "01-01-2000")) in
  let bodies := [Partial (Some "A") None None; Partial (Some "Z") None (Some "02-02-2002")] in
  let res := run (updates_on "a@b.com" bodies) (create body init).1 in
  status (create body init).2 = 201
  ∧ (create body init).2 = created (Friend "A" "B" "01-01-2000")
  ∧ Forall (λ resp, status resp = 200) res.2
  ∧ get_one "a@b.com" res.1
    = (res.1, found "a@b.com" (foldl replay (Friend "A" "B" "01-01-2000") res.2))
  ∧ (object_prototype init = no_fields →
     foldl replay (Friend "A" "B" "01-01-2000") res.2
     = foldl (λ acc u, spec_update u acc) (Friend "A" "B" "01-01-2000") bodies).
Proof.
  intros body bodies res. split; [reflexivity |].
  apply (round_trip init (create body init).1 (create body init).2
           "a@b.com" "A" "B" "01-01-2000" bodies); reflexivity.
Defined.

(** The round trip of the specification's examples, evaluated. *)
Example round_trip_example :
  let body := CreateBody (Some "a@b.com") (Partial (Some "A") (Some "B") (Some "01-01-2000")) in
  let bodies := [Partial (Some "A") None None; Partial (Some "Z") None (Some "02-02-2002")] in
  (get_one "a@b.com" (run (updates_on "a@b.com" bodies) (create body init).1).1).2
  = found "a@b.com" (Friend "Z" "B" "02-02-2002").
Proof. by vm_compute. Qed.

(** *** The keys of the store in the states the router reaches *)

Lemma lookup_RFriend (st : store) (key : string) (r : friend) :
  lookup st key = RFriend r → friends st !! key = Some r.
Proof.
  unfold lookup, inherited. destruct (friends st !! key); [by intros [= ->] |].
  repeat case_decide; try done. by destruct (inherited_string _ _).
Qed.

Lemma assign_keys (st : store) (email key : string) (f : field) (v : string) :
  is_Some (friends (assign st email f v) !! key) → is_Some (friends st !! key).
Proof.
  unfold assign. destruct (lookup st email) as [r| | | |] eqn:Hl; try done.
  simpl. rewrite lookup_insert_is_Some. intros [<- | [_ Hk]]; [| done].
  apply lookup_RFriend in Hl. by rewrite Hl.
Qed.

Lemma update_field_keys (email key : string) (updates : partial) (f : field)
    (acc : store * list string) :
  is_Some (friends (update_field email updates f acc).1 !! key) →
  is_Some (friends acc.1 !! key).
Proof.
  destruct acc as [st l]. unfold update_field.
  destruct (body_get st updates f); [| done].
  case_decide; [| done]. simpl. apply assign_keys.
Qed.

Lemma update_keys (st : store) (email key : string) (updates : partial) :
  is_Some (friends (update email updates st).1 !! key) → is_Some (friends st !! key).
Proof.
  unfold update. destruct (negb (ref_truthy (lookup st email))); [done |].
  set (steps := update_field email updates Dob _).
  assert (Hs : is_Some (friends steps.1 !! key) → is_Some (friends st !! key)).
  { intros Hk. unfold steps in Hk. by do 3 apply update_field_keys in Hk. }
  by destruct steps.
Qed.

Lemma create_keys (body : create_body) (st : store) (key : string) :
  is_Some (friends (create body st).1 !! key) →
  is_Some (friends st !! key) ∨ (includes "@" key = true ∧ includes "." key = true).
Proof.
  destruct (create body st) as [st1 r1] eqn:Hc. simpl.
  destruct (decide (status r1 = 201)) as [Hs|Hs].
  - destruct (create_success _ _ _ _ Hc Hs)
      as (email & fn & ln & d & _ & -> & _ & _ & Hat & Hdot & _).
    simpl. rewrite lookup_insert_is_Some. intros [<- | [_ Hk]]; eauto.
  - revert Hc. unfold create. intros Hc. left.
    repeat case_match; simplify_eq; done.
Qed.

(** Every key of a reachable store contains "@" and ".": the three
    initial emails do, and POST stores no other. *)
Lemma reachable_keys (st : store) :
  reachable st →
  ∀ key, is_Some (friends st !! key) →
         includes "@" key = true ∧ includes "." key = true.
Proof.
  induction 1 as [|rq st Hst IH]; intros key Hk.
  - apply initial_keys in Hk. revert key Hk. by apply initial_emails_cases.
  - destruct rq as [|email|body|email updates|email]; simpl in Hk.
    + by apply IH.
    + apply IH. revert Hk. unfold get_one. by case_match.
    + apply create_keys in Hk as [Hk | Hk]; [by apply IH | done].
    + apply IH. by apply update_keys in Hk.
    + apply IH. revert Hk. unfold remove. case_match; [done |]. simpl.
      rewrite lookup_delete_is_Some. by intros [_ ?].
Qed.

(** DELETE of a stored record in a reachable state: the key is removed,
    the answer carries the record as it was and the number of records left,
    and GET on that email is answered with 404 afterwards. *)
Lemma reachable_remove (st : store) (email : string) (r : friend) :
  reachable st → friends st !! email = Some r →
  remove email st
  = (delete_own st email,
     removed email (DFriend r) (size (dom (delete email (friends st)))))
  ∧ friends (delete_own st email) !! email = None
  ∧ get_one email (delete_own st email) = (delete_own st email, not_found email).
Proof.
  intros Hst Hr. split; [by apply remove_own |]. split; [apply lookup_delete_eq |].
  destruct (reachable_keys st Hst email) as [Hat _]; [by rewrite Hr |].
  pose proof (get_after_remove st email r Hr Hat) as Hg.
  by rewrite (remove_own _ _ r) in Hg.
Qed.

(** *** The examples of the specification, evaluated *)

Example create_then_get :
  let body := CreateBody (Some "a@b.com") (Partial (Some "A") (Some "B") (Some "01-01-2000")) in
  let st1 := (create body init).1 in
  (create body init).2 = created (Friend "A" "B" "01-01-2000")
  ∧ (get_one "a@b.com" st1).2 = found "a@b.com" (Friend "A" "B" "01-01-2000")
  ∧ create body st1 = (st1, already_exists "a@b.com").
Proof. by vm_compute. Qed.

Example remove_then_get :
  let st1 := (remove "annasmith@gmail.com" init).1 in
  (remove "annasmith@gmail.com" init).2
  = removed "annasmith@gmail.com" (DFriend (Friend "Anna" "Smith" "02-07-1983")) 2
  ∧ get_one "annasmith@gmail.com" st1 = (st1, not_found "annasmith@gmail.com")
  ∧ remove "nobody@example.com" init = (init, not_found "nobody@example.com").
Proof. by vm_compute. Qed.

(** In a runtime where a request has put [firstName] on
    [Object.prototype], the round trip still returns the changes that the
    PUTs report, and these include the inherited field. *)
Example round_trip_inherited_field :
  let st0 := (update "__proto__" (Partial (Some "Eve") None None) init).1 in
  let body := CreateBody (Some "a@b.com") (Partial (Some "A") (Some "B") (Some "01-01-2000")) in
  let res := run (updates_on "a@b.com" [no_fields]) (create body st0).1 in
  res.2 = [updated "a@b.com" (Friend "Eve" "B" "01-01-2000") ["firstName"]]
  ∧ (get_one "a@b.com" res.1).2 = found "a@b.com" (Friend "Eve" "B" "01-01-2000").
Proof. by vm_compute. Qed.

(** The shorter revision: a provided field counts as updated whether or
    not its value differs, and DELETE returns no count. *)
Example basic_update_provided :
  message (RouterBasic.update "johnsmith@gmail.com" (Partial (Some "John") None None) init).2
  = Some "Friend updated. Fields modified: firstName".
Proof. by vm_compute. Qed.

Example basic_remove_no_count :
  remainingCount (RouterBasic.remove "johnsmith@gmail.com" init).2 = None.
Proof. by vm_compute. Qed.

End RouterFacts.

(** ** The credential store *)

Module UsersFacts.
Import Js Http Users JsFacts.

Lemma doesExist_spec (users : list user) (name : string) :
  doesExist users name = true ↔ ∃ u, u ∈ users ∧ username u = name.
Proof.
  unfold doesExist. rewrite existsb_exists. split.
  - intros (u & Hin & Heq). exists u. split; [by apply list_elem_of_In |].
    by apply String.eqb_eq.
  - intros (u & Hin & Heq). exists u. split; [by apply list_elem_of_In |].
    by apply String.eqb_eq.
Qed.

Lemma authenticatedUser_spec (users : list user) (name pass : string) :
  authenticatedUser users name pass = true
  ↔ ∃ u, u ∈ users ∧ username u = name ∧ password u = pass.
Proof.
  unfold authenticatedUser. rewrite existsb_exists. split.
  - intros (u & Hin & Heq). apply andb_true_iff in Heq as [Hn Hp].
    exists u. split; [by apply list_elem_of_In |]. split; by apply String.eqb_eq.
  - intros (u & Hin & Hn & Hp). exists u. split; [by apply list_elem_of_In |].
    apply andb_true_iff. split; by apply String.eqb_eq.
Qed.

Lemma doesExist_app (users : list user) (u : user) (name : string) :
  doesExist (users ++ [u]) name = doesExist users name || String.eqb (username u) name.
Proof. unfold doesExist. rewrite existsb_app. simpl. by rewrite orb_false_r. Qed.

Lemma truthy_given (s : string) : s ≠ "" → truthy (Some s) = true.
Proof. intros Hs. by apply truthy_Some. Qed.

(** POST /register with both fields present and non-empty. *)
Lemma register_valid (now : Z) (users : list user) (name pass : string) :
  name ≠ "" → pass ≠ "" →
  register now (Credentials (Some name) (Some pass)) users
  = if doesExist users name then (users, username_taken)
    else ((users ++ [User name pass now])%list, registered).
Proof.
  intros Hn Hp. unfold register. simpl c_username. simpl c_password.
  by rewrite !truthy_given.
Qed.

(** C3, as the code has it. POST /register first checks the two fields:
    when the username or the password is empty or absent the answer is 400
    and the array is unchanged, also when the username is taken. With both
    fields non-empty, a taken username (an element with exactly that
    username) is answered with 409 and the array is unchanged; a free one
    appends exactly one user carrying the two fields and the current time,
    after which a second registration of that username with any non-empty
    password is answered with 409 and leaves the array, first record
    included, as it was. *)
Theorem register_outcomes (now now' : Z) (users : list user) (body : credentials)
    (name pass pass' : string) :
  (truthy (c_username body) = false ∨ truthy (c_password body) = false →
     register now body users = (users, fields_required))
  ∧ (name ≠ "" → pass ≠ "" →
       ((∃ u, u ∈ users ∧ username u = name) →
          register now (Credentials (Some name) (Some pass)) users
          = (users, username_taken))
       ∧ (¬ (∃ u, u ∈ users ∧ username u = name) →
          register now (Credentials (Some name) (Some pass)) users
          = ((users ++ [User name pass now])%list, registered)
          ∧ (pass' ≠ "" →
             register now' (Credentials (Some name) (Some pass'))
                      (users ++ [User name pass now])
             = ((users ++ [User name pass now])%list, username_taken)))).
Proof.
  split.
  - intros Hf. unfold register.
    destruct Hf as [-> | ->]; simpl; [done | by rewrite orb_true_r].
  - intros Hn Hp. split.
    + intros Hex. apply doesExist_spec in Hex.
      by rewrite register_valid, Hex.
    + intros Hex. rewrite <- doesExist_spec in Hex. apply not_true_is_false in Hex.
      rewrite register_valid, Hex by done. split; [done |]. intros Hp'.
      rewrite register_valid, doesExist_app by done. simpl.
      by rewrite String.eqb_refl, orb_true_r.
Qed.

Lemma register_outcomes_witness :
  (truthy (c_username (Credentials (Some "bob") (Some "")))= false
   ∨ truthy (c_password (Credentials (Some "bob") (Some ""))) = false)
  ∧ register 5 (Credentials (Some "bob") (Some "")) [User "amy" "x" 1]
    = ([User "amy" "x" 1], fields_required)
  ∧ register 5 (Credentials (Some "amy") (Some "pw")) [User "amy" "x" 1]
    = ([User "amy" "x" 1], username_taken)
  ∧ register 5 (Credentials (Some "bob") (Some "pw")) [User "amy" "x" 1]
    = ([User "amy" "x" 1; User "bob" "pw" 5], registered)
  ∧ register 9 (Credentials (Some "bob") (Some "other")) [User "amy" "x" 1; User "bob" "pw" 5]
    = ([User "amy" "x" 1; User "bob" "pw" 5], username_taken).
Proof.
  assert (Hf : truthy (c_username (Credentials (Some "bob") (Some ""))) = false
               ∨ truthy (c_password (Credentials (Some "bob") (Some ""))) = false)
    by (right; reflexivity).
  split; [exact Hf |].
  split; [exact (proj1 (register_outcomes 5 9 [User "amy" "x" 1]
                          (Credentials (Some "bob") (Some "")) "bob" "pw" "other") Hf) |].
  split.
  - refine (proj1 (proj2 (register_outcomes 5 9 [User "amy" "x" 1]
                            (Credentials (Some "bob") (Some "")) "amy" "pw" "other")
                     _ _) _); [discriminate | discriminate |].
    exists (User "amy" "x" 1). split; [apply list_elem_of_here | reflexivity].
  - assert (Hfree : ¬ (∃ u, u ∈ [User "amy" "x" 1] ∧ username u = "bob")).
    { intros (u & Hin & Hu). apply list_elem_of_singleton in Hin. subst u. discriminate Hu. }
    assert (Hn : "bob" ≠ "") by discriminate.
    assert (Hp : "pw" ≠ "") by discriminate.
    assert (Hp' : "other" ≠ "") by discriminate.
    pose proof (proj2 (proj2 (register_outcomes 5 9 [User "amy" "x" 1]
                  (Credentials (Some "bob") (Some "")) "bob" "pw" "other") Hn Hp) Hfree)
      as [H1 H2].
    split; [exact H1 | exact (H2 Hp')].
Defined.

(** C3, as the specification states it, fails: "bob" is registered, and a
    second registration of "bob" with an empty password is answered with
    400 "Username and password are required.", not with the 409 of a taken
    username. *)
Lemma register_taken_empty_password :
  let users := (register 5 (Credentials (Some "bob") (Some "pw")) []).1 in
  doesExist users "bob" = true
  ∧ register 9 (Credentials (Some "bob") (Some "")) users = (users, fields_required)
  ∧ status fields_required = 400
  ∧ (register 9 (Credentials (Some "bob") (Some "")) users).2 ≠ username_taken.
Proof. by vm_compute. Qed.

End UsersFacts.

(** ** Login and the gate on /friends *)

Module AuthFacts.
Import Js Http Users Auth JsFacts UsersFacts.

(** The reference implementation keeps the package's promises. *)
#[global] Instance plain_laws : JwtLaws Plain.token.
Proof.
  split.
  - intros c k ttl t0 t Ht. simpl.
    rewrite decide_True by done. by rewrite decide_True.
  - intros c k ttl t0 t d. simpl.
    repeat case_decide; [| done | done]. by intros [= <-].
Qed.

Section gate.
Context {token : Type} `{Jwt token}.

(** C2. The middleware on /friends. Without [authorization] in the
    session the answer is 401 and the router is not run, whatever it is;
    with a stored token that [jwt.verify] rejects under the secret "access"
    the answer is 403 and the router is not run; with a token that verifies,
    [req.user] is the session's username with the token's [data], and the
    request is handed to the router. *)
Theorem gate_outcomes (now : Z) (s : session) :
  (session_authorization s = None →
     authMiddleware now s = Respond unauthorized ∧ status unauthorized = 401
     ∧ ∀ (S Rq : Type) (routes : identity → Rq → S → S * response) rq st,
         friends_route routes now s rq st = (st, unauthorized))
  ∧ (∀ a, session_authorization s = Some a →
       jwt_verify (accessToken a) "access" now = None →
       authMiddleware now s = Respond forbidden ∧ status forbidden = 403
       ∧ ∀ (S Rq : Type) (routes : identity → Rq → S → S * response) rq st,
           friends_route routes now s rq st = (st, forbidden))
  ∧ (∀ a d, session_authorization s = Some a →
       jwt_verify (accessToken a) "access" now = Some d →
       authMiddleware now s = Next (Identity (auth_username a) (d_data d))
       ∧ ∀ (S Rq : Type) (routes : identity → Rq → S → S * response) rq st,
           friends_route routes now s rq st
           = routes (Identity (auth_username a) (d_data d)) rq st).
Proof.
  split; [| split].
  - intros Hs. assert (Hm : authMiddleware now s = Respond unauthorized).
    { unfold authMiddleware. by rewrite Hs. }
    split; [done |]. split; [done |]. intros. unfold friends_route. by rewrite Hm.
  - intros a Hs Hv. assert (Hm : authMiddleware now s = Respond forbidden).
    { unfold authMiddleware. by rewrite Hs, Hv. }
    split; [done |]. split; [done |]. intros. unfold friends_route. by rewrite Hm.
  - intros a d Hs Hv.
    assert (Hm : authMiddleware now s = Next (Identity (auth_username a) (d_data d))).
    { unfold authMiddleware. by rewrite Hs, Hv. }
    split; [done |]. intros. unfold friends_route. by rewrite Hm.
Qed.

Context `{!JwtLaws token}.

(** C10. A login answered with 200 signs, as the [data] of the token it
    puts in the session, the password sent in the request, which is the
    cleartext password stored for that user; whenever the middleware lets a
    request of that session through, [req.user.data] is this password, and
    it does so for the hour that follows the login. *)
Theorem login_token_carries_password (now : Z) (body : credentials)
    (users : list user) (s s' : session) (r : response) :
  login now body users s = (s', r) → status r = 200 →
  ∃ name pass,
    c_username body = Some name ∧ c_password body = Some pass
    ∧ (∃ u, u ∈ users ∧ username u = name ∧ password u = pass)
    ∧ session_authorization s'
      = Some (Authorization (jwt_sign (Claims name pass) "access" 3600 now) name)
    ∧ (∀ now' user, authMiddleware now' s' = Next user →
         user_username user = name ∧ user_data user = pass)
    ∧ (∀ now', (now' < now + 3600)%Z →
         authMiddleware now' s' = Next (Identity name pass)).
Proof.
  unfold login. intros Hl Hs.
  destruct (c_username body) as [name|]; [| RouterFacts.rejected Hl Hs].
  destruct (c_password body) as [pass|];
    [| rewrite orb_true_r in Hl; RouterFacts.rejected Hl Hs].
  destruct (negb (truthy (Some name)) || negb (truthy (Some pass)));
    [RouterFacts.rejected Hl Hs |].
  simpl in Hl.
  destruct (authenticatedUser users name pass) eqn:Ha;
    [| RouterFacts.rejected Hl Hs].
  simpl in Hl. injection Hl as <- <-.
  exists name, pass. split; [done |]. split; [done |].
  split; [by apply authenticatedUser_spec |]. split; [done |]. split.
  - intros now' user. unfold authMiddleware. simpl.
    destruct (jwt_verify _ "access" now') as [d|] eqn:Hv; [| done].
    intros [= <-]. apply verify_signed in Hv as [_ Hd]. by split.
  - intros now' Hlt. unfold authMiddleware. simpl.
    by rewrite verify_fresh.
Qed.

End gate.

Lemma gate_outcomes_witness :
  let good := jwt_sign (Claims "amy" "pw") "access" 3600 0 in
  let forged := jwt_sign (Claims "amy" "pw") "guess" 3600 0 in
  authMiddleware 10 (Session None 0) = Respond unauthorized
  ∧ authMiddleware 10 (Session (Some (Authorization forged "amy")) 0) = Respond forbidden
  ∧ authMiddleware 3600 (Session (Some (Authorization good "amy")) 0) = Respond forbidden
  ∧ authMiddleware 10 (Session (Some (Authorization good "amy")) 0)
    = Next (Identity "amy" "pw").
Proof.
  intros good forged. split; [| split; [| split]].
  - exact (proj1 (proj1 (gate_outcomes (token := Plain.token) 10 (Session None 0)) eq_refl)).
  - exact (proj1 (proj1 (proj2 (gate_outcomes 10
             (Session (Some (Authorization forged "amy")) 0)))
             (Authorization forged "amy") eq_refl eq_refl)).
  - exact (proj1 (proj1 (proj2 (gate_outcomes 3600
             (Session (Some (Authorization good "amy")) 0)))
             (Authorization good "amy") eq_refl eq_refl)).
  - exact (proj1 (proj2 (proj2 (gate_outcomes 10
             (Session (Some (Authorization good "amy")) 0)))
             (Authorization good "amy") (Decoded "amy" "pw" 0 3600) eq_refl eq_refl)).
Defined.

Lemma login_token_carries_password_witness :
  let users := [User "amy" "pw" 1] in
  let res := login (token := Plain.token) 100 (Credentials (Some "amy") (Some "pw")) users
               (Session None 0) in
  status res.2 = 200
  ∧ ∃ name pass,
      Some "amy" = Some name ∧ Some "pw" = Some pass
      ∧ (∃ u, u ∈ users ∧ username u = name ∧ password u = pass)
      ∧ session_authorization res.1
        = Some (Authorization (jwt_sign (Claims name pass) "access" 3600 100) name)
      ∧ (∀ now' user, authMiddleware now' res.1 = Next user →
           user_username user = name ∧ user_data user = pass)
      ∧ (∀ now', (now' < 100 + 3600)%Z →
           authMiddleware now' res.1 = Next (Identity name pass)).
Proof.
  intros users res. split; [reflexivity |].
  apply (login_token_carries_password (token := Plain.token) 100
           (Credentials (Some "amy") (Some "pw")) users (Session None 0) res.1 res.2);
    reflexivity.
Defined.

End AuthFacts.

(** ** More on the friends router *)

Module RouterProps.
Import Js Http Router Spec App JsFacts RouterFacts.

(** Unfolds a handler down to its branches. *)
Ltac handler_cases :=
  unfold handle, list_all, get_one, create, update, remove;
  repeat (case_match; try done);
  repeat match goal with
         | |- context [let '(_, _) := ?p in _] => destruct p
         end.

(** X1. GET requests, and the requests the router answers with
    [success: false], leave the friends object and the built-in objects as
    they were. *)
Theorem rejected_requests_leave_state (st : store) :
  (∀ rq, success (handle rq st).2 = false → (handle rq st).1 = st)
  ∧ (handle GetAll st).1 = st
  ∧ ∀ email, (handle (GetOne email) st).1 = st.
Proof.
  split; [| split].
  - intros rq. destruct rq; handler_cases; simpl; done.
  - done.
  - intros email. by handler_cases.
Qed.

Lemma rejected_requests_leave_state_witness :
  success (handle (Delete "nobody@example.com") init).2 = false
  ∧ (handle (Delete "nobody@example.com") init).1 = init.
Proof.
  assert (Hs : success (handle (Delete "nobody@example.com") init).2 = false)
    by reflexivity.
  split; [exact Hs |].
  exact (proj1 (rejected_requests_leave_state init) (Delete "nobody@example.com") Hs).
Defined.


(** *** POST *)

(** The request and the state behind a 201. *)
Lemma create_inv (body : create_body) (st st1 : store) (r1 : response) :
  create body st = (st1, r1) → status r1 = 201 →
  ∃ email fn ln d,
    required (b_email body) = Some email
    ∧ required (body_get st (b_fields body) FirstName) = Some fn
    ∧ required (body_get st (b_fields body) LastName) = Some ln
    ∧ required (body_get st (b_fields body) Dob) = Some d
    ∧ includes "@" email = true ∧ includes "." email = true
    ∧ ref_truthy (lookup st email) = false
    ∧ st1 = define_own st email (Friend fn ln d)
    ∧ r1 = created (Friend fn ln d).
Proof.
  unfold create. intros Hc Hs.
  destruct (required (b_email body)) as [email|]; [| rejected Hc Hs].
  destruct (required (body_get st (b_fields body) FirstName)) as [fn|]; [| rejected Hc Hs].
  destruct (required (body_get st (b_fields body) LastName)) as [ln|]; [| rejected Hc Hs].
  destruct (required (body_get st (b_fields body) Dob)) as [d|]; [| rejected Hc Hs].
  destruct (includes "@" email) eqn:Hat; [| rejected Hc Hs].
  destruct (includes "." email) eqn:Hdot; [| rejected Hc Hs].
  simpl in Hc.
  destruct (ref_truthy (lookup st email)) eqn:Ht; [rejected Hc Hs |].
  rewrite create_stores in Hc. injection Hc as <- <-.
  exists email, fn, ln, d. by repeat split.
Qed.

(** A POST either changes nothing or is answered with 201. *)
Lemma create_cases (body : create_body) (st : store) :
  (create body st).1 = st ∨ status (create body st).2 = 201.
Proof. unfold create. repeat case_match; simpl; eauto. Qed.

Lemma count_listed (st : store) :
  count (list_all st).2 = Some (size (friends st)).
Proof. rewrite list_all_listed. simpl. by rewrite size_dom. Qed.

(** X3. A POST answered with 201 has stored, under an email that was not a
    key, exactly the record it returns, and one record more is counted; a GET
    on the email returns that record, and the same POST sent again is
    answered with 400 "already exists" and changes nothing. *)
Theorem create_stores_record (body : create_body) (st st1 : store) (r1 : response) :
  create body st = (st1, r1) → status r1 = 201 →
  ∃ email r,
    b_email body = Some email ∧ r1 = created r
    ∧ friends st !! email = None
    ∧ friends st1 = <[email := r]> (friends st)
    ∧ count (list_all st1).2 = S <$> count (list_all st).2
    ∧ get_one email st1 = (st1, found email r)
    ∧ create body st1 = (st1, already_exists email).
Proof.
  intros Hc Hs.
  destruct (create_inv _ _ _ _ Hc Hs)
    as (email & fn & ln & d & He & Hfn & Hln & Hd & Hat & Hdot & Hfalsy & -> & ->).
  pose proof (falsy_not_own _ _ Hfalsy) as Hnone.
  exists email, (Friend fn ln d).
  split; [by apply required_Some in He as [? _] |]. split; [done |].
  split; [done |]. split; [done |]. split; [| split].
  - rewrite !count_listed. simpl. by rewrite map_size_insert_None.
  - apply get_one_own, define_own_lookup.
  - unfold create.
    change (body_get (define_own st email (Friend fn ln d))) with (body_get st).
    rewrite He, Hfn, Hln, Hd, Hat, Hdot. simpl.
    by rewrite (lookup_own _ _ _ (define_own_lookup _ _ _)).
Qed.

Lemma create_stores_record_witness :
  let body := CreateBody (Some "a@b.com") (Partial (Some "A") (Some "B") (Some "01-01-2000")) in
  status (create body init).2 = 201
  ∧ ∃ email r,
      b_email body = Some email ∧ (create body init).2 = created r
      ∧ friends init !! email = None
      ∧ friends (create body init).1 = <[email := r]> (friends init)
      ∧ count (list_all (create body init).1).2 = S <$> count (list_all init).2
      ∧ get_one email (create body init).1 = ((create body init).1, found email r)
      ∧ create body (create body init).1 = ((create body init).1, already_exists email).
Proof.
  intros body. split; [reflexivity |].
  apply (create_stores_record body init (create body init).1 (create body init).2);
    reflexivity.
Defined.

(** X4. A POST never touches a record that is stored: whatever the body, every
    key of the store keeps its record. *)
Theorem create_keeps_records (body : create_body) (st : store) (key : string) (r : friend) :
  friends st !! key = Some r → friends (create body st).1 !! key = Some r.
Proof.
  intros Hr. destruct (create_cases body st) as [-> | Hs]; [done |].
  destruct (create body st) as [st1 r1] eqn:Hc. simpl in *.
  destruct (create_inv _ _ _ _ Hc Hs)
    as (email & fn & ln & d & _ & _ & _ & _ & _ & _ & Hfalsy & -> & _).
  simpl. rewrite lookup_insert_ne; [done |].
  intros <-. apply falsy_not_own in Hfalsy. congruence.
Qed.

Lemma create_keeps_records_witness :
  friends init !! "annasmith@gmail.com" = Some (Friend "Anna" "Smith" "02-07-1983")
  ∧ friends (create (CreateBody (Some "annasmith@gmail.com")
                       (Partial (Some "X") (Some "Y") (Some "Z"))) init).1
      !! "annasmith@gmail.com"
    = Some (Friend "Anna" "Smith" "02-07-1983").
Proof.
  split; [reflexivity |].
  apply (create_keeps_records _ init "annasmith@gmail.com"). reflexivity.
Defined.

(** X5. The missing-field check comes first: when the email, or one of the
    three fields as the handler reads them, is absent or empty, the answer is
    400 "All fields are required", also for an email that is malformed or
    already stored, and nothing changes. *)
Theorem create_missing_field (body : create_body) (st : store) :
  truthy (b_email body) = false
  ∨ (∃ f, truthy (body_get st (b_fields body) f) = false) →
  create body st = (st, missing_fields).
Proof.
  assert (Hreq : ∀ v, truthy v = false → required v = None).
  { intros v Hv. unfold required. by rewrite Hv. }
  intros [He | [f Hf]]; unfold create.
  - by rewrite (Hreq _ He).
  - destruct f; rewrite (Hreq _ Hf); by repeat case_match.
Qed.

Lemma create_missing_field_witness :
  create (CreateBody (Some "johnsmith@gmail.com") (Partial (Some "J") None (Some "x"))) init
  = (init, missing_fields).
Proof.
  apply create_missing_field. right. exists LastName. reflexivity.
Defined.

(** *** PUT *)

Lemma spec_update_idem (updates : partial) (r : friend) :
  spec_update updates (spec_update updates r) = spec_update updates r.
Proof.
  apply friend_ext. intros f. rewrite !spec_update_get.
  by destruct (partial_get f updates).
Qed.

Lemma spec_changed_after (updates : partial) (r : friend) :
  spec_changed updates (spec_update updates r) = [].
Proof.
  assert (Hf : ∀ f, changed_name f updates (spec_update updates r) = []).
  { intros f. unfold changed_name. pose proof (spec_update_get f updates r) as Hg.
    destruct (partial_get f updates) as [v|]; [| done]. simpl in Hg.
    rewrite decide_False; [done |]. intros Hne. by apply Hne. }
  unfold spec_changed. by rewrite !Hf.
Qed.

(** X6. Repeating a PUT on a stored record changes nothing more: the second
    answer returns the record of the first, says "No fields were updated
    (values unchanged)" and has no [updatedFields]. *)
Theorem update_twice (st : store) (email : string) (r : friend) (updates : partial) :
  friends st !! email = Some r →
  ∃ r',
    data (update email updates st).2 = Some (DFriend r')
    ∧ update email updates (update email updates st).1
      = ((update email updates st).1, updated email r' []).
Proof.
  intros Hr. rewrite (update_own _ _ r) by done. cbn [fst snd].
  exists (spec_update (incoming st updates) r). split; [done |].
  rewrite (update_own _ _ _ _ (define_own_lookup _ _ _)).
  change (incoming (define_own st email _) updates) with (incoming st updates).
  by rewrite spec_update_idem, spec_changed_after, define_own_twice.
Qed.

Lemma update_twice_witness :
  let u := Partial (Some "Johnny") None (Some "01-01-1991") in
  friends init !! "johnsmith@gmail.com" = Some (Friend "John" "Doe" "22-12-1990")
  ∧ ∃ r',
      data (update "johnsmith@gmail.com" u init).2 = Some (DFriend r')
      ∧ update "johnsmith@gmail.com" u (update "johnsmith@gmail.com" u init).1
        = ((update "johnsmith@gmail.com" u init).1, updated "johnsmith@gmail.com" r' []).
Proof.
  intros u. split; [reflexivity |].
  apply (update_twice init "johnsmith@gmail.com" (Friend "John" "Doe" "22-12-1990") u).
  reflexivity.
Defined.

(** *** Unknown emails *)

(** X7. An email that contains "@" and is not a key of the store is unknown to
    the three routes that take one: GET, PUT and DELETE answer 404 "not
    found" and change nothing, in every state. *)
Theorem unknown_email (st : store) (email : string) (updates : partial) :
  includes "@" email = true → friends st !! email = None →
  get_one email st = (st, not_found email)
  ∧ update email updates st = (st, not_found email)
  ∧ remove email st = (st, not_found email).
Proof.
  intros Hat Hnone.
  assert (Hfalsy : ref_truthy (lookup st email) = false).
  { unfold lookup. by rewrite Hnone, inherited_at. }
  split; [by apply get_one_falsy |]. split; [| by apply remove_falsy].
  unfold update. by rewrite Hfalsy.
Qed.

Lemma unknown_email_witness :
  get_one "nobody@example.com" init = (init, not_found "nobody@example.com")
  ∧ update "nobody@example.com" (Partial (Some "N") None None) init
    = (init, not_found "nobody@example.com")
  ∧ remove "nobody@example.com" init = (init, not_found "nobody@example.com").
Proof.
  apply (unknown_email init "nobody@example.com" (Partial (Some "N") None None));
    reflexivity.
Defined.

(** *** DELETE *)

(** X8. DELETE changes the store at the given email only: every other key
    keeps its record, the built-in objects are not written, and for a stored
    record the count goes down by exactly one, to the [remainingCount] of the
    answer. *)
Theorem remove_frame (st : store) (email : string) :
  (∀ key, key ≠ email → friends (remove email st).1 !! key = friends st !! key)
  ∧ object_prototype (remove email st).1 = object_prototype st
  ∧ method_props (remove email st).1 = method_props st
  ∧ (∀ r, friends st !! email = Some r →
       ∃ n, remainingCount (remove email st).2 = Some n
            ∧ count (list_all (remove email st).1).2 = Some n
            ∧ count (list_all st).2 = Some (S n)).
Proof.
  split; [| split; [| split]].
  - intros key Hne. unfold remove. case_match; [done |]. simpl.
    by rewrite lookup_delete_ne.
  - unfold remove. by case_match.
  - unfold remove. by case_match.
  - intros r Hr. rewrite (remove_own _ _ r) by done. cbn [fst snd remainingCount removed].
    exists (size (delete email (friends st))). rewrite !count_listed, size_dom.
    split; [done |]. split; [done |]. simpl. f_equal.
    rewrite <- (insert_delete_id (friends st) email r Hr) at 1.
    apply map_size_insert_None, lookup_delete_eq.
Qed.

Lemma remove_frame_witness :
  "johnsmith@gmail.com" ≠ "annasmith@gmail.com"
  ∧ friends (remove "annasmith@gmail.com" init).1 !! "johnsmith@gmail.com"
    = friends init !! "johnsmith@gmail.com".
Proof.
  assert (Hne : "johnsmith@gmail.com" ≠ "annasmith@gmail.com") by discriminate.
  split; [exact Hne |].
  exact (proj1 (remove_frame init "annasmith@gmail.com") "johnsmith@gmail.com" Hne).
Defined.

(** *** The built-in objects *)

Lemma lookup_email (st : store) (email : string) :
  includes "@" email = true →
  (∃ r, friends st !! email = Some r) ∨ ref_truthy (lookup st email) = false.
Proof.
  intros Hat. unfold lookup. destruct (friends st !! email) as [r|]; [eauto |].
  right. by rewrite inherited_at.
Qed.

Lemma handle_builtins (rq : request) (st : store) :
  put_on_email rq = true →
  object_prototype (handle rq st).1 = object_prototype st
  ∧ method_props (handle rq st).1 = method_props st.
Proof.
  intros Hrq. destruct rq as [|email|body|email updates|email]; simpl.
  - done.
  - unfold get_one. by case_match.
  - destruct (create_cases body st) as [-> | Hs]; [done |].
    destruct (create body st) as [st1 r1] eqn:Hc.
    by destruct (create_inv _ _ _ _ Hc Hs)
      as (? & ? & ? & ? & _ & _ & _ & _ & _ & _ & _ & -> & _).
  - destruct (lookup_email st email Hrq) as [[r Hr] | Hfalsy].
    + by rewrite (update_own _ _ r).
    + unfold update. by rewrite Hfalsy.
  - unfold remove. by case_match.
Qed.

Lemma run_builtins (rqs : list request) :
  forallb put_on_email rqs = true →
  ∀ st, object_prototype (run rqs st).1 = object_prototype st
        ∧ method_props (run rqs st).1 = method_props st.
Proof.
  induction rqs as [|rq rest IH]; intros Hall st; [done |].
  simpl in Hall. apply andb_true_iff in Hall as [Hrq Hrest].
  rewrite run_cons. cbn [fst].
  destruct (IH Hrest (handle rq st).1) as [-> ->]. by apply handle_builtins.
Qed.

(** X9. No request other than a PUT on a name without "@" writes to a
    built-in object. After any sequence of requests whose PUTs are all on names with an
    "@", [Object.prototype] and its methods carry none of the three
    properties, and a PUT on a stored record then keeps every field that its
    body does not carry. *)
Theorem emails_keep_builtins (rqs : list request) :
  forallb put_on_email rqs = true →
  let st := (run rqs init).1 in
  object_prototype st = no_fields ∧ method_props st = ∅
  ∧ ∀ email r updates f,
      friends st !! email = Some r → partial_get f updates = None →
      ∃ r', friends (update email updates st).1 !! email = Some r'
            ∧ friend_get f r' = friend_get f r.
Proof.
  intros Hall st. destruct (run_builtins rqs Hall init) as [Hop Hmp].
  split; [done |]. split; [done |].
  intros email r updates f Hr Hf. by apply update_frame_clean.
Qed.

Lemma emails_keep_builtins_witness :
  let rqs := [Put "johnsmith@gmail.com" (Partial (Some "Johnny") None None);
              Delete "constructor";
              Post (CreateBody (Some "a@b.com") (Partial (Some "A") (Some "B") (Some "C")))] in
  forallb put_on_email rqs = true
  ∧ object_prototype (run rqs init).1 = no_fields
  ∧ method_props (run rqs init).1 = ∅.
Proof.
  intros rqs.
  assert (Hall : forallb put_on_email rqs = true) by reflexivity.
  split; [exact Hall |].
  split; [exact (proj1 (emails_keep_builtins rqs Hall))
         | exact (proj1 (proj2 (emails_keep_builtins rqs Hall)))].
Defined.

(** *** The keys of the store *)

(** X10. In every state the router reaches, each key of the store contains "@"
    and ".", so that it is none of the names [friends] inherits: looking it
    up gives the stored record, and GET returns it. *)
Theorem store_keys_are_emails (st : store) (key : string) (r : friend) :
  reachable st → friends st !! key = Some r →
  substring_of "@" key ∧ substring_of "." key
  ∧ inherited st key = RUndefined
  ∧ get_one key st = (st, found key r).
Proof.
  intros Hst Hr.
  destruct (reachable_keys st Hst key) as [Hat Hdot]; [by rewrite Hr |].
  split; [by apply includes_substring |]. split; [by apply includes_substring |].
  split; [by apply inherited_at | by apply get_one_own].
Qed.

Lemma store_keys_are_emails_witness :
  let st := (handle (Post (CreateBody (Some "a@b.com")
                             (Partial (Some "A") (Some "B") (Some "C")))) init).1 in
  reachable st ∧ friends st !! "a@b.com" = Some (Friend "A" "B" "C")
  ∧ substring_of "@" "a@b.com" ∧ substring_of "." "a@b.com"
  ∧ inherited st "a@b.com" = RUndefined
  ∧ get_one "a@b.com" st = (st, found "a@b.com" (Friend "A" "B" "C")).
Proof.
  intros st.
  assert (Hst : reachable st) by apply reachable_step, reachable_init.
  assert (Hr : friends st !! "a@b.com" = Some (Friend "A" "B" "C")) by reflexivity.
  split; [exact Hst |]. split; [exact Hr |].
  exact (store_keys_are_emails st "a@b.com" (Friend "A" "B" "C") Hst Hr).
Defined.

(** X11. In a reachable state a stored record can be deleted once: the second
    DELETE of the same email is answered with 404 and changes nothing. *)
Theorem remove_twice (st : store) (email : string) (r : friend) :
  reachable st → friends st !! email = Some r →
  status (remove email st).2 = 200
  ∧ remove email (remove email st).1 = ((remove email st).1, not_found email).
Proof.
  intros Hst Hr.
  destruct (reachable_keys st Hst email) as [Hat _]; [by rewrite Hr |].
  rewrite (remove_own _ _ r) by done. split; [done |]. cbn [fst].
  apply remove_falsy. unfold lookup. simpl.
  by rewrite lookup_delete_eq, inherited_at.
Qed.

Lemma remove_twice_witness :
  reachable init
  ∧ friends init !! "peterjones@gmail.com" = Some (Friend "Peter" "Jones" "21-03-1989")
  ∧ status (remove "peterjones@gmail.com" init).2 = 200
  ∧ remove "peterjones@gmail.com" (remove "peterjones@gmail.com" init).1
    = ((remove "peterjones@gmail.com" init).1, not_found "peterjones@gmail.com").
Proof.
  assert (Hr : friends init !! "peterjones@gmail.com"
               = Some (Friend "Peter" "Jones" "21-03-1989")) by reflexivity.
  split; [exact reachable_init |]. split; [exact Hr |].
  exact (remove_twice init "peterjones@gmail.com" _ reachable_init Hr).
Defined.

End RouterProps.

(** ** The shorter revision of the router *)

Module RouterBasicProps.
Import Js Http Spec App JsFacts RouterFacts.

(** One update block of the shorter revision, on a stored record. *)
Lemma basic_update_field_own (st : store) (email : string) (r : friend)
    (updates : partial) (f : field) (l : list string) :
  friends st !! email = Some r →
  RouterBasic.update_field email updates f (st, l)
  = (Router.define_own st email (write_field f (incoming st updates) r),
     (l ++ provided_name f (incoming st updates))%list).
Proof.
  intros Hr. unfold RouterBasic.update_field, write_field, provided_name.
  rewrite incoming_get. destruct (body_get st updates f) as [v|].
  - by rewrite (assign_own _ _ r).
  - rewrite define_own_id by done. by rewrite app_nil_r.
Qed.

Lemma basic_message (names : list string) :
  (if decide (0 < length names)
   then "Friend updated. Fields modified: " +:+ join ", " names
   else "No fields were updated")
  = match names with
    | [] => "No fields were updated"
    | _ => "Friend updated. Fields modified: " +:+ join ", " names
    end.
Proof. by destruct names. Qed.

Lemma basic_update_own (st : store) (email : string) (r : friend) (updates : partial) :
  friends st !! email = Some r →
  RouterBasic.update email updates st
  = (Router.define_own st email (write_all (incoming st updates) r),
     basic_updated (write_all (incoming st updates) r)
                   (provided_names (incoming st updates))).
Proof.
  intros Hr. unfold RouterBasic.update. rewrite (lookup_own _ _ _ Hr).
  cbn [ref_truthy negb].
  rewrite (basic_update_field_own _ _ r) by done.
  rewrite (basic_update_field_own _ _ _ _ _ _ (define_own_lookup _ _ _)).
  rewrite define_own_twice.
  rewrite (basic_update_field_own _ _ _ _ _ _ (define_own_lookup _ _ _)).
  rewrite define_own_twice.
  change (incoming (Router.define_own _ _ _) updates) with (incoming st updates).
  rewrite (lookup_own _ _ _ (define_own_lookup _ _ _)), basic_message.
  unfold basic_updated, write_all, provided_names. simpl. by rewrite <- app_assoc.
Qed.

Lemma write_field_get (f g : field) (updates : partial) (r : friend) :
  friend_get f (write_field g updates r)
  = if decide (f = g) then default (friend_get f r) (partial_get g updates)
    else friend_get f r.
Proof.
  unfold write_field. destruct (partial_get g updates) as [v|]; simpl.
  - by rewrite friend_get_set.
  - by case_decide.
Qed.

Lemma write_all_get (f : field) (updates : partial) (r : friend) :
  friend_get f (write_all updates r) = default (friend_get f r) (partial_get f updates).
Proof.
  unfold write_all. rewrite !write_field_get. destruct f; by repeat case_decide.
Qed.

(** Writing every provided field gives the record that writing the
    differing ones gives. *)
Lemma write_all_spec_update (updates : partial) (r : friend) :
  write_all updates r = spec_update updates r.
Proof. apply friend_ext. intros f. by rewrite write_all_get, spec_update_get. Qed.

Lemma provided_names_elem (f : field) (updates : partial) :
  field_name f ∈ provided_names updates ↔ is_Some (partial_get f updates).
Proof.
  assert (Hone : ∀ g, field_name f ∈ provided_name g updates
                      ↔ f = g ∧ is_Some (partial_get g updates)).
  { intros g. unfold provided_name. destruct (partial_get g updates).
    - rewrite list_elem_of_singleton. split.
      + intros Hn. apply field_name_inj in Hn. eauto.
      + by intros [-> _].
    - rewrite elem_of_nil. split; [done |]. intros [_ Hs]. by destruct Hs. }
  unfold provided_names. rewrite !elem_of_app, !Hone. split.
  - intros [(-> & Hv) | [(-> & Hv) | (-> & Hv)]]; exact Hv.
  - intros Hv. destruct f; eauto.
Qed.

(** X12. PUT on a stored record in the shorter revision: every field the body
    carries is written and named in the message, whether or not its value
    differs from the stored one; a field for which the handler reads no value
    is kept and not named. *)
Theorem basic_update_provided_fields (st : store) (email : string) (r : friend)
    (updates : partial) :
  friends st !! email = Some r →
  ∃ r' names,
    RouterBasic.update email updates st
    = (Router.define_own st email r', basic_updated r' names)
    ∧ (∀ f v, partial_get f updates = Some v →
         field_name f ∈ names ∧ friend_get f r' = v)
    ∧ (∀ f, body_get st updates f = None →
         (field_name f ∉ names) ∧ friend_get f r' = friend_get f r).
Proof.
  intros Hr. exists (write_all (incoming st updates) r),
                    (provided_names (incoming st updates)).
  split; [by apply basic_update_own |]. split.
  - intros f v Hv. pose proof (incoming_present st _ _ _ Hv) as Hin.
    rewrite provided_names_elem, write_all_get, Hin. by split.
  - intros f Hf. rewrite provided_names_elem, write_all_get, incoming_get, Hf.
    split; [by intros [? ?] | done].
Qed.

Lemma basic_update_provided_fields_witness :
  let u := Partial (Some "John") None None in
  friends RouterBasic.init !! "johnsmith@gmail.com" = Some (Friend "John" "Doe" "22-12-1990")
  ∧ ∃ r' names,
      RouterBasic.update "johnsmith@gmail.com" u RouterBasic.init
      = (Router.define_own RouterBasic.init "johnsmith@gmail.com" r', basic_updated r' names)
      ∧ (∀ f v, partial_get f u = Some v → field_name f ∈ names ∧ friend_get f r' = v)
      ∧ (∀ f, body_get RouterBasic.init u f = None →
           (field_name f ∉ names)
           ∧ friend_get f r' = friend_get f (Friend "John" "Doe" "22-12-1990")).
Proof.
  intros u. split; [reflexivity |].
  apply (basic_update_provided_fields RouterBasic.init "johnsmith@gmail.com"
           (Friend "John" "Doe" "22-12-1990") u).
  reflexivity.
Defined.

(** X13. The two revisions of the router differ in what they answer, not in
    what they store: a PUT on a stored record and a DELETE lead to the same
    state and return the same record, and a POST that the format check of the
    longer revision lets through is handled identically by both. *)
Theorem revisions_agree (st : store) (email : string) (updates : partial)
    (body : Router.create_body) :
  (∀ r, friends st !! email = Some r →
     (RouterBasic.update email updates st).1 = (Router.update email updates st).1
     ∧ data (RouterBasic.update email updates st).2
       = data (Router.update email updates st).2)
  ∧ (RouterBasic.remove email st).1 = (Router.remove email st).1
  ∧ data (RouterBasic.remove email st).2 = data (Router.remove email st).2
  ∧ ((Router.create body st).2 ≠ Router.invalid_email →
     RouterBasic.create body st = Router.create body st).
Proof.
  split; [| split; [| split]].
  - intros r Hr. rewrite (basic_update_own _ _ r), (update_own _ _ r) by done.
    simpl. by rewrite write_all_spec_update.
  - unfold RouterBasic.remove, Router.remove. by case_match.
  - unfold RouterBasic.remove, Router.remove. by case_match.
  - unfold RouterBasic.create, Router.create. repeat case_match; try done.
    all: simpl; intros Hne; by destruct Hne.
Qed.

Lemma revisions_agree_witness :
  let u := Partial (Some "John") (Some "Smith") None in
  friends Router.init !! "johnsmith@gmail.com" = Some (Friend "John" "Doe" "22-12-1990")
  ∧ (RouterBasic.update "johnsmith@gmail.com" u Router.init).1
    = (Router.update "johnsmith@gmail.com" u Router.init).1
  ∧ data (RouterBasic.update "johnsmith@gmail.com" u Router.init).2
    = data (Router.update "johnsmith@gmail.com" u Router.init).2.
Proof.
  intros u.
  assert (Hr : friends Router.init !! "johnsmith@gmail.com"
               = Some (Friend "John" "Doe" "22-12-1990")) by reflexivity.
  split; [exact Hr |].
  exact (proj1 (revisions_agree Router.init "johnsmith@gmail.com" u
                  (Router.CreateBody None no_fields)) _ Hr).
Defined.

End RouterBasicProps.

(** ** More on the credential store *)

Module UsersProps.
Import Js Http Users App JsFacts UsersFacts.

Lemma register_grows (now : Z) (body : credentials) (users : list user) :
  ∃ added, (register now body users).1 = (users ++ added)%list.
Proof.
  unfold register. repeat case_match; simpl; [exists [] | exists [] | eauto];
    by rewrite app_nil_r.
Qed.

(** X14. POST /register only ever appends: the users stored before are kept,
    in place and unchanged; a 201 appends exactly one user, who carries the
    two fields of the body and the time of the request, and any other answer
    appends nothing. *)
Theorem register_appends (now : Z) (body : credentials) (users : list user) :
  ∃ added,
    (register now body users).1 = (users ++ added)%list
    ∧ (status (register now body users).2 = 201 →
       ∃ name pass, added = [User name pass now]
                    ∧ c_username body = Some name ∧ c_password body = Some pass)
    ∧ (status (register now body users).2 ≠ 201 → added = []).
Proof.
  unfold register.
  destruct (negb (truthy (c_username body)) || negb (truthy (c_password body))) eqn:Hv.
  - exists []. rewrite app_nil_r. by repeat split.
  - destruct (c_username body) as [name|]; [| done].
    destruct (c_password body) as [pass|]; [| by rewrite orb_true_r in Hv].
    simpl. destruct (doesExist users name).
    + exists []. rewrite app_nil_r. by repeat split.
    + exists [User name pass now]. split; [done |]. split; [eauto | done].
Qed.

Lemma register_appends_witness :
  status (register 7 (Credentials (Some "bob") (Some "pw")) [User "amy" "x" 1]).2 = 201
  ∧ (register 7 (Credentials (Some "bob") (Some "pw")) [User "amy" "x" 1]).1
    = [User "amy" "x" 1; User "bob" "pw" 7].
Proof.
  split; [reflexivity |].
  destruct (register_appends 7 (Credentials (Some "bob") (Some "pw")) [User "amy" "x" 1])
    as (added & Heq & Hok & _).
  destruct (Hok eq_refl) as (name & pass & -> & [= <-] & [= <-]).
  exact Heq.
Defined.

Lemma doesExist_false (users : list user) (name : string) :
  doesExist users name = false → name ∉ username <$> users.
Proof.
  intros Hd Hin. apply list_elem_of_fmap in Hin as (u & -> & Hu).
  assert (doesExist users (username u) = true) by (apply doesExist_spec; eauto).
  congruence.
Qed.

Lemma register_ok (now : Z) (body : credentials) (users : list user) :
  users_ok users → users_ok (register now body users).1.
Proof.
  intros [Hnd Hall]. unfold register.
  destruct (negb (truthy (c_username body)) || negb (truthy (c_password body))) eqn:Hv;
    [done |].
  apply orb_false_iff in Hv as [Hn Hp].
  apply negb_false_iff in Hn, Hp.
  destruct (c_username body) as [name|]; [| done].
  destruct (c_password body) as [pass|]; [| done].
  apply truthy_Some in Hn, Hp. simpl.
  destruct (doesExist users name) eqn:Hd; [done |]. simpl. split.
  - rewrite fmap_app. apply NoDup_app. split; [done |]. split.
    + intros x Hx Hin. apply list_elem_of_singleton in Hin. subst x.
      by apply (doesExist_false _ _ Hd).
    + apply NoDup_singleton.
  - apply Forall_app. split; [done |]. by apply Forall_singleton.
Qed.

Lemma register_all_ok (rqs : list (Z * credentials)) :
  ∀ users, users_ok users → users_ok (register_all rqs users).
Proof.
  induction rqs as [|[now body] rest IH]; intros users Hok; [done |].
  simpl. by apply IH, register_ok.
Qed.

Lemma same_username (users : list user) (u v : user) :
  NoDup (username <$> users) → u ∈ users → v ∈ users →
  username u = username v → u = v.
Proof.
  induction users as [|w rest IH]; intros Hnd Hu Hv Heq.
  - by apply elem_of_nil in Hu.
  - rewrite fmap_cons in Hnd. apply NoDup_cons in Hnd as [Hw Hnd].
    apply elem_of_cons in Hu as [-> | Hu]; apply elem_of_cons in Hv as [-> | Hv].
    + done.
    + exfalso. apply Hw. rewrite Heq. by apply list_elem_of_fmap_2.
    + exfalso. apply Hw. rewrite <- Heq. by apply list_elem_of_fmap_2.
    + by apply IH.
Qed.

(** X15. Whatever sequence of registrations the empty [users] array has gone
    through, no two users share a username and no username or password is
    empty; hence at most one password authenticates a given username. *)
Theorem registered_users_ok (rqs : list (Z * credentials)) :
  users_ok (register_all rqs [])
  ∧ ∀ name pass pass',
      authenticatedUser (register_all rqs []) name pass = true →
      authenticatedUser (register_all rqs []) name pass' = true →
      pass = pass'.
Proof.
  assert (Hok : users_ok (register_all rqs [])).
  { apply register_all_ok. split; [apply NoDup_nil_2 | apply Forall_nil_2]. }
  split; [done |]. intros name pass pass' H1 H2.
  apply authenticatedUser_spec in H1 as (u & Hu & Hun & <-).
  apply authenticatedUser_spec in H2 as (v & Hv & Hvn & <-).
  destruct Hok as [Hnd _].
  by rewrite (same_username _ u v Hnd Hu Hv) by congruence.
Qed.

Lemma registered_users_ok_witness :
  let rqs := [(1%Z, Credentials (Some "amy") (Some "x"));
              (2%Z, Credentials (Some "amy") (Some "y"));
              (3%Z, Credentials (Some "bob") (Some ""))] in
  register_all rqs [] = [User "amy" "x" 1]
  ∧ users_ok (register_all rqs []).
Proof.
  intros rqs. split; [reflexivity | exact (proj1 (registered_users_ok rqs))].
Defined.

End UsersProps.

(** ** Registration, login and the protected routes together *)

Module AppProps.
Import Js Http Users Auth App JsFacts UsersFacts.

Lemma authenticated_app (users more : list user) (name pass : string) :
  authenticatedUser (users ++ more) name pass
  = authenticatedUser users name pass || authenticatedUser more name pass.
Proof. unfold authenticatedUser. apply existsb_app. Qed.

Lemma not_existing_not_authenticated (users : list user) (name pass : string) :
  doesExist users name = false → authenticatedUser users name pass = false.
Proof.
  intros Hd. apply not_true_is_false. intros Ha.
  apply authenticatedUser_spec in Ha as (u & Hu & Hn & _).
  assert (doesExist users name = true) by (apply doesExist_spec; eauto).
  congruence.
Qed.

(** What the answer 201 of POST /register tells. *)
Lemma register_inv (now : Z) (name pass : string) (users users' : list user) :
  register now (Credentials (Some name) (Some pass)) users = (users', registered) →
  name ≠ "" ∧ pass ≠ "" ∧ doesExist users name = false
  ∧ users' = (users ++ [User name pass now])%list.
Proof.
  unfold register. simpl c_username. simpl c_password.
  destruct (negb (truthy (Some name)) || negb (truthy (Some pass))) eqn:Hv; [done |].
  apply orb_false_iff in Hv as [Hn Hp]. apply negb_false_iff in Hn, Hp.
  apply truthy_Some in Hn, Hp. simpl.
  destruct (doesExist users name); [done |]. by intros [= <-].
Qed.

Lemma authenticated_later (rqs : list (Z * credentials)) :
  ∀ users name pass,
    authenticatedUser users name pass = true →
    authenticatedUser (register_all rqs users) name pass = true.
Proof.
  induction rqs as [|[now body] rest IH]; intros users name pass Ha; [done |].
  simpl. apply IH.
  destruct (UsersProps.register_grows now body users) as (added & ->).
  by rewrite authenticated_app, Ha.
Qed.

Section flows.
Context {token : Type} `{Jwt token}.

Lemma login_valid (now : Z) (name pass : string) (users : list user) (s : session) :
  name ≠ "" → pass ≠ "" →
  login now (Credentials (Some name) (Some pass)) users s
  = if negb (authenticatedUser users name pass) then (s, invalid_credentials)
    else (Session (Some (Authorization
                           (jwt_sign (Claims name pass) "access" (60 * 60) now) name))
                  (60 * 60 * 1000),
          {| status := 200; success := true; message := Some "Login successful";
             data := Some (DLogin name "1 hour");
             count := None; updatedFields := None; remainingCount := None |}).
Proof.
  intros Hn Hp. unfold login. simpl c_username. simpl c_password.
  by rewrite !truthy_given.
Qed.

Lemma login_failed (now : Z) (body : credentials) (users : list user) (s : session) :
  status (login now body users s).2 ≠ 200 → (login now body users s).1 = s.
Proof. unfold login. by repeat case_match. Qed.

(** X16. POST /login is answered with 400 exactly when the username or the
    password is absent or empty, and with 200 exactly when both are given and
    some stored user has this username with this password; every other
    request gets 401. Unless the answer is 200 the session is left as it was;
    with 200 it holds the username of the request and its cookie lasts one
    hour. *)
Theorem login_outcomes (now : Z) (body : credentials) (users : list user) (s : session) :
  let res := login now body users s in
  status res.2 ∈ [200; 400; 401]
  ∧ (status res.2 = 400
     ↔ truthy (c_username body) = false ∨ truthy (c_password body) = false)
  ∧ (status res.2 = 200
     ↔ ∃ name pass, c_username body = Some name ∧ c_password body = Some pass
                    ∧ name ≠ "" ∧ pass ≠ ""
                    ∧ ∃ u, u ∈ users ∧ username u = name ∧ password u = pass)
  ∧ (status res.2 ≠ 200 → res.1 = s)
  ∧ (status res.2 = 200 →
     cookie_maxAge res.1 = 3600000%Z
     ∧ ∃ a, session_authorization res.1 = Some a
            ∧ c_username body = Some (auth_username a)).
Proof.
  intros res. unfold res, login.
  destruct (c_username body) as [name|]; simpl.
  2: { split; [rewrite !elem_of_cons; eauto |]. split; [split; eauto |].
       split; [split; [done | by intros (? & ? & ? & _)] | done]. }
  destruct (c_password body) as [pass|]; simpl.
  2: { rewrite orb_true_r. simpl. split; [rewrite !elem_of_cons; eauto |]. split; [split; eauto |].
       split; [split; [done | by intros (? & ? & _ & ? & _)] | done]. }
  destruct (String.eqb_spec name "") as [-> | Hn]; simpl.
  { split; [rewrite !elem_of_cons; eauto |]. split; [split; eauto |].
    split; [split; [done | by intros (? & ? & [= <-] & _ & ? & _)] | done]. }
  destruct (String.eqb_spec pass "") as [-> | Hp]; simpl.
  { split; [rewrite !elem_of_cons; eauto |]. split; [split; eauto |].
    split; [split; [done | by intros (? & ? & _ & [= <-] & _ & ? & _)] | done]. }
  destruct (authenticatedUser users name pass) eqn:Ha; simpl.
  - apply authenticatedUser_spec in Ha.
    split; [rewrite !elem_of_cons; eauto |]. split; [split; [done | by intros [? | ?]] |].
    split; [split; [intros _; eauto 10 | done] |]. split; [done |].
    intros _. split; [done |]. eauto.
  - split; [rewrite !elem_of_cons; eauto |]. split; [split; [done | by intros [? | ?]] |].
    split; [| done]. split; [done |].
    intros (n & p & [= <-] & [= <-] & _ & _ & Hu).
    apply authenticatedUser_spec in Hu. congruence.
Qed.

(** X17. A user who has registered can log in, then and after any further
    registrations, from any session; the same username with another password
    is turned away (400 when that password is empty, 401 otherwise) and the
    session stays as it was. *)
Theorem register_then_login (now : Z) (name pass : string) (users users' : list user) :
  register now (Credentials (Some name) (Some pass)) users = (users', registered) →
  (∀ rqs t s,
     status (login t (Credentials (Some name) (Some pass)) (register_all rqs users') s).2
     = 200)
  ∧ (∀ t s pass', pass' ≠ pass →
       login t (Credentials (Some name) (Some pass')) users' s
       = (s, if truthy (Some pass') then invalid_credentials else fields_required)).
Proof.
  intros Hr. destruct (register_inv _ _ _ _ _ Hr) as (Hn & Hp & Hd & ->). split.
  - intros rqs t s. rewrite login_valid by done.
    rewrite authenticated_later; [done |].
    rewrite authenticated_app. simpl. rewrite !String.eqb_refl. simpl.
    by rewrite orb_true_r.
  - intros t s pass' Hne. destruct (String.eqb_spec pass' "") as [-> | Hp'].
    + simpl. unfold login. simpl. rewrite orb_true_r. done.
    + rewrite login_valid by done. rewrite authenticated_app.
      rewrite (not_existing_not_authenticated _ _ _ Hd). simpl.
      rewrite String.eqb_refl. simpl.
      destruct (String.eqb_spec pass pass') as [-> | _]; [done |]. simpl.
      destruct (String.eqb_spec pass' "") as [-> | _]; done.
Qed.

(** X18. A login that is not answered with 200 opens nothing: if the session
    was not authorised before, the protected routes answer 401 afterwards and
    the friends store is not touched. *)
Theorem failed_login_keeps_gate_closed (now later : Z) (body : credentials)
    (users : list user) (s : session) (rq : Router.request) (st : store) :
  session_authorization s = None →
  status (login now body users s).2 ≠ 200 →
  friends_app later (login now body users s).1 rq st = (st, unauthorized).
Proof.
  intros Hs Hl.
  rewrite (login_failed now body users s Hl).
  unfold friends_app, friends_route, authMiddleware. by rewrite Hs.
Qed.

Context `{!JwtLaws token}.

(** X19. Registration, login and a protected request in a row: the login of a
    registered user is answered with 200, and for the hour that follows every
    request to /friends made with that session is served by the router, with
    the answer and the state change the router gives it. *)
Theorem registered_user_reaches_router (now0 now1 : Z) (name pass : string)
    (users users' : list user) (s : session) :
  register now0 (Credentials (Some name) (Some pass)) users = (users', registered) →
  let res := login now1 (Credentials (Some name) (Some pass)) users' s in
  status res.2 = 200
  ∧ ∀ t rq st, (t < now1 + 3600)%Z → friends_app t res.1 rq st = Router.handle rq st.
Proof.
  intros Hr res. destruct (register_inv _ _ _ _ _ Hr) as (Hn & Hp & Hd & ->).
  unfold res. rewrite login_valid by done.
  rewrite authenticated_app. simpl. rewrite !String.eqb_refl. simpl.
  rewrite orb_true_r. simpl. split; [done |].
  intros t rq st Ht. unfold friends_app, friends_route, authMiddleware. simpl.
  by rewrite verify_fresh.
Qed.

End flows.

Lemma login_outcomes_witness :
  let users := [User "amy" "pw" 1] in
  let res := login (token := Plain.token) 100 (Credentials (Some "amy") (Some "no")) users
               (Session None 0) in
  status res.2 = 401 ∧ status res.2 ≠ 200 ∧ res.1 = Session None 0.
Proof.
  intros users res.
  assert (Hs : status res.2 ≠ 200) by discriminate.
  split; [reflexivity |]. split; [exact Hs |].
  exact (proj1 (proj2 (proj2 (proj2
           (login_outcomes (token := Plain.token) 100
              (Credentials (Some "amy") (Some "no")) users (Session None 0))))) Hs).
Defined.

Lemma register_then_login_witness :
  let creds := Credentials (Some "bob") (Some "pw") in
  register 5 creds [User "amy" "x" 1] = ([User "amy" "x" 1; User "bob" "pw" 5], registered)
  ∧ status (login (token := Plain.token) 9 creds
              (register_all [(6%Z, Credentials (Some "cat") (Some "z"))]
                            [User "amy" "x" 1; User "bob" "pw" 5])
              (Session None 0)).2 = 200
  ∧ login (token := Plain.token) 9 (Credentials (Some "bob") (Some "guess"))
          [User "amy" "x" 1; User "bob" "pw" 5] (Session None 0)
    = (Session None 0, invalid_credentials).
Proof.
  intros creds.
  assert (Hr : register 5 creds [User "amy" "x" 1]
               = ([User "amy" "x" 1; User "bob" "pw" 5], registered)) by reflexivity.
  split; [exact Hr |]. split.
  - exact (proj1 (register_then_login (token := Plain.token) 5 "bob" "pw" _ _ Hr)
             [(6%Z, Credentials (Some "cat") (Some "z"))] 9%Z (Session None 0)).
  - refine (proj2 (register_then_login (token := Plain.token) 5 "bob" "pw" _ _ Hr)
              9%Z (Session None 0) "guess" _).
    discriminate.
Defined.

Lemma failed_login_keeps_gate_closed_witness :
  let s := Session (token := Plain.token) None 0 in
  let body := Credentials (Some "amy") None in
  session_authorization s = None
  ∧ status (login 100 body [User "amy" "pw" 1] s).2 ≠ 200
  ∧ friends_app 101 (login 100 body [User "amy" "pw" 1] s).1
      (Router.Delete "johnsmith@gmail.com") Router.init
    = (Router.init, unauthorized).
Proof.
  intros s body.
  assert (Hs : session_authorization s = None) by reflexivity.
  assert (Hl : status (login 100 body [User "amy" "pw" 1] s).2 ≠ 200) by discriminate.
  split; [exact Hs |]. split; [exact Hl |].
  exact (failed_login_keeps_gate_closed 100 101 body [User "amy" "pw" 1] s
           (Router.Delete "johnsmith@gmail.com") Router.init Hs Hl).
Defined.

Lemma registered_user_reaches_router_witness :
  let creds := Credentials (Some "bob") (Some "pw") in
  let res := login (token := Plain.token) 100 creds [User "bob" "pw" 5] (Session None 0) in
  register 5 creds [] = ([User "bob" "pw" 5], registered)
  ∧ status res.2 = 200
  ∧ ∀ t rq st, (t < 100 + 3600)%Z → friends_app t res.1 rq st = Router.handle rq st.
Proof.
  intros creds res.
  assert (Hr : register 5 creds [] = ([User "bob" "pw" 5], registered)) by reflexivity.
  split; [exact Hr |].
  exact (registered_user_reaches_router (token := Plain.token) 5 100 "bob" "pw" [] _
           (Session None 0) Hr).
Defined.

End AppProps.
